(** * Game of Life board: a shallow embedding of [gol::game::GameOfLifeBoard]
    (src/include/game/board.h, src/src/game/board.cpp) and of the seeding
    routine [InitializeBoard] (src/src/game_of_life/game_of_life.cpp).

    Conventions of the embedding.
    - [std::size_t] values (dimensions, loop indices, seed coordinates) are
      [nat]; [int] values are [Z], and every conversion to [int] is written
      out with [to_int] (wrap-around to 32 bits, two's complement, as on the
      LP64 targets the program is built for), every conversion to
      [std::size_t] with [to_size_t] (reduction modulo 2^64).
    - [std::vector<bool>] is [list bool], the matrix a list of rows.  The
      class has the single data member [state_], so a board is its [state_].
    - An element access outside a vector is undefined behaviour in C++; the
      embedding makes every access checked and returns [None] for it. *)

From stdpp Require Import base decidable option numbers list strings.
From Stdlib Require Import ZArith Lia.

Local Open Scope Z_scope.

(** ** Integer conversions *)

(** Conversion of an integer value to [int] (32 bits). *)
Definition to_int (z : Z) : Z := (z + 2 ^ 31) `mod` 2 ^ 32 - 2 ^ 31.

(** Conversion of an integer value to [std::size_t] (64 bits). *)
Definition to_size_t (z : Z) : Z := z `mod` 2 ^ 64.

(** ** The board *)

Abbreviation CellStateVec := (list bool).
Abbreviation CellStateMatrix := (list CellStateVec).

(** [v[i]] for a [std::size_t] index held as an integer value. *)
Definition at_index {A} (v : list A) (i : Z) : option A :=
  if decide (0 ≤ i < Z.of_nat (length v)) then v !! Z.to_nat i else None.

(** [state_(num_rows, CellStateVec(num_cols, false))] *)
Definition GameOfLifeBoard (num_rows num_cols : nat) : CellStateMatrix :=
  replicate num_rows (replicate num_cols false).

(** [Rows() { return state_.size(); }] *)
Definition Rows (state_ : CellStateMatrix) : nat := length state_.

(** [Cols() { return state_[0].size(); }]: reads row 0 unconditionally. *)
Definition Cols (state_ : CellStateMatrix) : option nat :=
  row0 ← state_ !! 0%nat; Some (length row0).

(** [operator[](int i) { return state_[i]; }]: the [int] argument is
    converted to [std::size_t] by the vector's subscript. *)
Definition subscript (state_ : CellStateMatrix) (i : Z) : option CellStateVec :=
  at_index state_ (to_size_t i).

(** Read of [m[i][j]] with [std::size_t] indices. *)
Definition cell (m : CellStateMatrix) (i j : nat) : option bool :=
  row ← m !! i; row !! j.

(** Write [m[i][j] = v] with [std::size_t] indices. *)
Definition store (m : CellStateMatrix) (i j : nat) (v : bool)
  : option CellStateMatrix :=
  row ← m !! i;
  if decide (j < length row)%nat then Some (<[i := <[j := v]> row]> m) else None.

(** A range-based [for] whose body may hit undefined behaviour. *)
Fixpoint for_each {A S} (xs : list A) (body : A → S → option S) (s : S)
  : option S :=
  match xs with
  | [] => Some s
  | a :: xs' => s' ← body a s; for_each xs' body s'
  end.

(** The eight 2D offsets, in the order of the source. *)
Definition kDirections : list (Z * Z) :=
  [(0, 1); (1, 0); (0, -1); (-1, 0); (1, 1); (1, -1); (-1, 1); (-1, -1)].

(** One iteration of the loop of [CountLiveNeighbors].  [row + direction.first]
    is computed in [std::size_t] and stored into an [int]; the cell is read
    only when the four range tests pass (short-circuit [&&]). *)
Definition count_step (state_ : CellStateMatrix) (kRowLimit kColLimit : Z)
    (row col : nat) (direction : Z * Z) (num_live_neighbors : Z) : option Z :=
  let neighbor_row := to_int (to_size_t (Z.of_nat row + direction.1)) in
  let neighbor_col := to_int (to_size_t (Z.of_nat col + direction.2)) in
  if (0 <=? neighbor_row) && (neighbor_row <? kRowLimit) &&
     (0 <=? neighbor_col) && (neighbor_col <? kColLimit)
  then
    r ← at_index state_ (to_size_t neighbor_row);
    alive ← at_index r (to_size_t neighbor_col);
    Some (if alive : bool then num_live_neighbors + 1 else num_live_neighbors)
  else Some num_live_neighbors.

Definition CountLiveNeighbors (state_ : CellStateMatrix) (row col : nat)
  : option Z :=
  let kRowLimit := to_int (Z.of_nat (Rows state_)) in
  cols ← Cols state_;
  let kColLimit := to_int (Z.of_nat cols) in
  for_each kDirections (count_step state_ kRowLimit kColLimit row col) 0.

(** The body of the inner loop of [Tick]: reads [state_], writes [tmp]. *)
Definition tick_cell (state_ : CellStateMatrix) (i j : nat)
    (tmp : CellStateMatrix) : option CellStateMatrix :=
  num_live_neighbors ← CountLiveNeighbors state_ i j;
  alive ← cell state_ i j;
  if alive : bool then
    if num_live_neighbors <? 2 then store tmp i j false
    else if 3 <? num_live_neighbors then store tmp i j false
    else Some tmp
  else if num_live_neighbors =? 3 then store tmp i j true
  else Some tmp.

(** The body of the outer loop.  The bound [Cols()] of the inner loop is
    evaluated when the loop is entered; [state_] is not written inside the
    loops, so the bound is the same at every test. *)
Definition tick_row (state_ : CellStateMatrix) (i : nat)
    (tmp : CellStateMatrix) : option CellStateMatrix :=
  cols ← Cols state_;
  for_each (seq 0 cols) (tick_cell state_ i) tmp.

(** [Tick]: the result is the new value of [state_]. *)
Definition Tick (state_ : CellStateMatrix) : option CellStateMatrix :=
  let tmp := state_ in
  for_each (seq 0 (Rows state_)) (tick_row state_) tmp.

(** ** Seeding (game_of_life.cpp) *)

Record Position2D := mkPosition2D { x : nat; y : nat }.

(** How a call of [InitializeBoard] ends; the board is passed by reference,
    so the caller sees the cells set before an exception. *)
Inductive seeding :=
  | Returned (board : CellStateMatrix)
  | Thrown (what : string) (board : CellStateMatrix)
  | Undefined.

(** [board[i][j] = v] through [operator[](int)]: the row index is narrowed
    to [int], the column index stays a [std::size_t]. *)
Definition assign (board : CellStateMatrix) (i j : nat) (v : bool)
  : option CellStateMatrix :=
  let k := to_size_t (to_int (Z.of_nat i)) in
  row ← subscript board (to_int (Z.of_nat i));
  if decide (j < length row)%nat
  then Some (<[Z.to_nat k := <[j := v]> row]> board) else None.

Fixpoint InitializeBoard (init_state : list Position2D)
    (board : CellStateMatrix) : seeding :=
  match init_state with
  | [] => Returned board
  | pos :: rest =>
      match Cols board with
      | None => Undefined
      | Some cols =>
          if (cols <=? x pos)%nat || (Rows board <=? y pos)%nat
          then Thrown "position does not fit within board boundaries" board
          else match assign board (y pos) (x pos) true with
               | None => Undefined
               | Some board' => InitializeBoard rest board'
               end
      end
  end.

(** ** Rendering and the draw loop (screen.cpp, game_of_life.cpp) *)

(** [struct ScreenDimension { int width; int height; }] *)
Record ScreenDimension := mkScreenDimension { width : Z; height : Z }.

(** The calls the program makes to ncurses and to the clock; a run is
    observed as the list of its calls, in order. *)
Inductive call :=
  | call_clear
  | call_mvaddch (row col : Z)
  | call_mvprintw (row col : Z) (text : string)
  | call_refresh
  | call_sleep_for (ms : Z).

(** The body of the inner loop of [DrawBoard]: [board[i][j]] goes through
    [operator[](int) const], and [mvaddch] takes [int] coordinates. *)
Definition draw_cell (board : CellStateMatrix) (i j : nat) (out : list call)
  : option (list call) :=
  row ← subscript board (to_int (Z.of_nat i));
  alive ← row !! j;
  Some (if alive : bool
        then out ++ [call_mvaddch (to_int (Z.of_nat i)) (to_int (Z.of_nat j))]
        else out).

Definition draw_row (board : CellStateMatrix) (i : nat) (out : list call)
  : option (list call) :=
  cols ← Cols board;
  for_each (seq 0 cols) (draw_cell board i) out.

(** [DrawBoard]: the calls it makes, [None] when an access leaves the grid. *)
Definition DrawBoard (board : CellStateMatrix) : option (list call) :=
  out ← for_each (seq 0 (Rows board)) (draw_row board) [];
  Some (out ++ [call_refresh]).

(** [DrawInstructions] *)
Definition DrawInstructions (screen_dim : ScreenDimension) : list call :=
  [call_mvprintw (height screen_dim - 1) 0 "press q to quit"; call_refresh].

(** [Quit() { return ('q' == getch()); }] on the value [getch] returned. *)
Definition Quit (key : Z) : bool := 113 =? key.

(** How far [RunDrawLoop] gets on the values [getch] returns: it leaves the
    loop, or it has used up the input and is still in the loop, or an
    access has left the grid. *)
Inductive run :=
  | Left_loop (out : list call) (board : CellStateMatrix)
  | In_loop (out : list call) (board : CellStateMatrix)
  | Run_undefined.

(** [RunDrawLoop]: [keys] are the successive results of [getch], [out] the
    calls made so far. *)
Fixpoint RunDrawLoop (dim : ScreenDimension) (update_rate_ms : Z)
    (keys : list Z) (board : CellStateMatrix) (out : list call) : run :=
  match keys with
  | [] => In_loop out board
  | key :: keys' =>
      if Quit key then Left_loop out board
      else
        match DrawBoard board with
        | None => Run_undefined
        | Some drawn =>
            match Tick board with
            | None => Run_undefined
            | Some board' =>
                RunDrawLoop dim update_rate_ms keys' board'
                  (out ++ [call_clear] ++ drawn ++ DrawInstructions dim
                       ++ [call_sleep_for update_rate_ms])
            end
        end
  end.

(** The board [main] builds: [GameOfLifeBoard board(dim.height - 1,
    dim.width)], the [int] arguments converted to [std::size_t]. *)
Definition main_board (dim : ScreenDimension) : CellStateMatrix :=
  GameOfLifeBoard (Z.to_nat (to_size_t (height dim - 1)))
                  (Z.to_nat (to_size_t (width dim))).

(** ** Loading the seeds (game_of_life.cpp) *)

(** What [std::sscanf(line, "(%zu, %zu)", &pos.y, &pos.x)] stores: nothing,
    [pos.y] only, or [pos.y] and [pos.x]. *)
Inductive scanned :=
  | stored_none
  | stored_y (y : nat)
  | stored_y_x (y x : nat).

(** One line read: the fields [sscanf] stores are overwritten, the others
    keep the value of the line before. *)
Definition scan_line (sscanf : string → scanned) (line : string)
    (pos : Position2D) : Position2D :=
  match sscanf line with
  | stored_none => pos
  | stored_y y' => mkPosition2D (x pos) y'
  | stored_y_x y' x' => mkPosition2D x' y'
  end.

(** The [while (std::getline(fhandle, line))] loop. *)
Fixpoint load_lines (sscanf : string → scanned) (lines : list string)
    (pos : Position2D) (init_state : list Position2D) : list Position2D :=
  match lines with
  | [] => init_state
  | line :: rest =>
      let pos' := scan_line sscanf line pos in
      load_lines sscanf rest pos' (init_state ++ [pos'])
  end.

(** How [LoadInitState] ends. *)
Inductive loaded :=
  | Loaded (init_state : list Position2D)
  | Invalid_argument (what : string).

(** [LoadInitState]: [file] is the list of the lines of the file, [None]
    when the file cannot be opened; [sscanf] stands for the library call. *)
Definition LoadInitState (sscanf : string → scanned) (filename : string)
    (file : option (list string)) : loaded :=
  match file with
  | None => Invalid_argument ("invalid file path ->" +:+ filename)
  | Some lines => Loaded (load_lines sscanf lines (mkPosition2D 0 0) [])
  end.

(** ** Reference definitions, following the specification's wording *)

(** Every row has exactly [cols] entries. *)
Definition rectangular (cols : nat) (m : CellStateMatrix) : Prop :=
  Forall (λ row, length row = cols) m.

(** A valid board: a rectangular matrix, of any number of rows and columns
    (the constructor builds one, [Tick] and cell writes keep it one). *)
Definition valid_board (m : CellStateMatrix) : Prop :=
  ∃ cols, rectangular cols m.

(** The state of position [(r, c)], any position outside the grid being
    dead. *)
Definition live_at (m : CellStateMatrix) (r c : Z) : bool :=
  default false (row ← at_index m r; at_index row c).

(** The offsets [(dr, dc)] with [dr, dc ∈ {-1,0,1}] and [(dr,dc) ≠ (0,0)]. *)
Definition neighbor_offsets : list (Z * Z) :=
  filter (λ d, d ≠ (0, 0)) (dr ← [-1; 0; 1]; dc ← [-1; 0; 1]; [(dr, dc)]).

(** Number of live cells among the eight surrounding positions. *)
Definition live_neighbors (m : CellStateMatrix) (r c : nat) : nat :=
  length (filter (λ d, live_at m (Z.of_nat r + d.1) (Z.of_nat c + d.2) = true)
            neighbor_offsets).

(** The birth/death/survival rule on a cell state and a neighbor count. *)
Definition transition (alive : bool) (n : Z) : bool :=
  if alive then bool_decide (n = 2 ∨ n = 3) else bool_decide (n = 3).

(** The next generation as the specification words it: a fresh grid in
    which every cell is the rule applied to the cell's state and to the
    number of live cells among its eight surrounding positions, all read
    from the snapshot. *)
Definition reference_generation (snapshot : CellStateMatrix) : CellStateMatrix :=
  imap (λ i row,
          imap (λ j alive,
                  transition alive (Z.of_nat (live_neighbors snapshot i j)))
               row)
       snapshot.

(** Every cell is dead. *)
Definition all_dead (m : CellStateMatrix) : Prop :=
  ∀ i j alive, cell m i j = Some alive → alive = false.

(** The boards a client obtains from [GameOfLifeBoard(rows, cols)] by
    [Tick()] and by writes [board[i][j] = v] with [i < rows], [j < cols]. *)
Inductive reachable (rows cols : nat) : CellStateMatrix → Prop :=
  | reach_construct : reachable rows cols (GameOfLifeBoard rows cols)
  | reach_tick m m' :
      reachable rows cols m → Tick m = Some m' → reachable rows cols m'
  | reach_assign m m' i j v :
      reachable rows cols m → (i < rows)%nat → (j < cols)%nat →
      assign m i j v = Some m' → reachable rows cols m'.

(** The cell write of one seed, and whether a seed lies on the board. *)
Definition seed (board : CellStateMatrix) (pos : Position2D) : CellStateMatrix :=
  alter (<[x pos := true]>) (y pos) board.

Definition on_board (rows cols : nat) (pos : Position2D) : Prop :=
  (y pos < rows)%nat ∧ (x pos < cols)%nat.

(** ** Auxiliary definitions of the proofs *)

(** The count the code obtains for cell [(i, j)] of a grid: the result of
    [CountLiveNeighbors], 0 where it has none. *)
Definition neighbors_seen (snapshot : CellStateMatrix) (i j : nat) : Z :=
  default 0 (CountLiveNeighbors snapshot i j).

(** The grid [Tick] returns (lemma [Tick_next_generation]): every cell is the
    rule on the cell and on the count the code obtains for it. *)
Definition next_generation (snapshot : CellStateMatrix) : CellStateMatrix :=
  imap (λ i row, imap (λ j alive, transition alive (neighbors_seen snapshot i j)) row)
    snapshot.

(** What one direction contributes in [CountLiveNeighbors]. *)
Definition counted (state_ : CellStateMatrix) (cols row col : nat)
    (direction : Z * Z) : bool :=
  let neighbor_row := to_int (to_size_t (Z.of_nat row + direction.1)) in
  let neighbor_col := to_int (to_size_t (Z.of_nat col + direction.2)) in
  (0 <=? neighbor_row) && (neighbor_row <? to_int (Z.of_nat (Rows state_))) &&
  (0 <=? neighbor_col) && (neighbor_col <? to_int (Z.of_nat cols)) &&
  live_at state_ neighbor_row neighbor_col.

(** The row [next_generation] computes for row [i] of the snapshot. *)
Definition next_row (snapshot : CellStateMatrix) (i : nat) (row : CellStateVec)
  : CellStateVec :=
  imap (λ j alive, transition alive (neighbors_seen snapshot i j)) row.

(** The buffer of a loop at index [j]: entries before [j] already hold
    their new value, the others still their old one. *)
Definition buffer_at {A} (j : nat) (new old : list A) : list A :=
  take j new ++ drop j old.

(** Sum of [f] over a list. *)
Definition total {A} (f : A → Z) (xs : list A) : Z :=
  foldr (λ a n, f a + n) 0 xs.

(** ** Boards used as examples *)

(** A horizontal blinker in the middle of a 5x5 board. *)
Definition blinker_5x5 : CellStateMatrix :=
  [[false; false; false; false; false];
   [false; false; false; false; false];
   [false; true;  true;  true;  false];
   [false; false; false; false; false];
   [false; false; false; false; false]].

(** [count] dead cells. *)
Definition dead_cells (count : Z) : CellStateVec :=
  replicate (Z.to_nat count) false.

(** One row of 2^31 columns whose only live cells are [(0,0)] and [(0,1)]. *)
Definition wide_pair : CellStateMatrix :=
  [true :: true :: dead_cells (2 ^ 31 - 2)].

(** Three rows of 2^31 columns with the horizontal blinker at row 1,
    columns 0, 1, 2. *)
Definition wide_blinker : CellStateMatrix :=
  [false :: false :: false :: dead_cells (2 ^ 31 - 3);
   true  :: true  :: true  :: dead_cells (2 ^ 31 - 3);
   false :: false :: false :: dead_cells (2 ^ 31 - 3)].

(** The [rows] x [cols] board whose cell [(i, j)] is [f i j]. *)
Definition board_of (rows cols : nat) (f : Z → Z → bool) : CellStateMatrix :=
  (λ i, (λ j, f (Z.of_nat i) (Z.of_nat j)) <$> seq 0 cols) <$> seq 0 rows.

(** Only the cells [(r, c-1)], [(r, c)], [(r, c+1)] are alive. *)
Definition horizontal_triple (r c : Z) (i j : Z) : bool :=
  bool_decide (i = r ∧ c - 1 ≤ j ≤ c + 1).

(** Only the cells [(r-1, c)], [(r, c)], [(r+1, c)] are alive. *)
Definition vertical_triple (r c : Z) (i j : Z) : bool :=
  bool_decide (j = c ∧ r - 1 ≤ i ≤ r + 1).

(** ** Reference definitions for the added functions *)

(** [n] generations. *)
Fixpoint generations (n : nat) (m : CellStateMatrix) : CellStateMatrix :=
  match n with
  | O => m
  | S n' => generations n' (next_generation m)
  end.

(** The calls of one pass of the loop on a board. *)
Definition frame (dim : ScreenDimension) (update_rate_ms : Z)
    (drawn : list call) : list call :=
  [call_clear] ++ drawn ++ DrawInstructions dim ++ [call_sleep_for update_rate_ms].

(** The four cells of the block with upper left corner [(r, c)]. *)
Definition block (r c : Z) (i j : Z) : bool :=
  bool_decide (r ≤ i ≤ r + 1 ∧ c ≤ j ≤ c + 1).

(** The [mvaddch] calls for the live cells of a grid, row by row. *)
Definition picture (m : CellStateMatrix) : list call :=
  mjoin (imap (λ i row,
           mjoin (imap (λ j (alive : bool),
                    if alive then [call_mvaddch (Z.of_nat i) (Z.of_nat j)] else [])
                  row)) m).

(** The calls of [n] passes of the loop, starting on [m]. *)
Fixpoint film (dim : ScreenDimension) (update_rate_ms : Z) (n : nat)
    (m : CellStateMatrix) : list call :=
  match n with
  | O => []
  | S n' => frame dim update_rate_ms (picture m ++ [call_refresh])
            ++ film dim update_rate_ms n' (next_generation m)
  end.

(** ** Tactics *)

(** Decide one [bool_decide] of the goal by linear arithmetic; the right
    operand of a conjunction first, so that a dead neighbor needs no range
    test. *)
Ltac decide_true P := rewrite (bool_decide_eq_true_2 P) by lia.
Ltac decide_false P := rewrite (bool_decide_eq_false_2 P) by lia.

Ltac decide_cell :=
  match goal with
  | |- context [_ && bool_decide ?P] => first [decide_false P | decide_true P]
  | |- context [bool_decide ?P && true] => decide_true P
  | |- context [bool_decide ?P] => first [decide_false P | decide_true P]
  end.

Ltac settle_cells :=
  repeat (decide_cell; rewrite ?andb_false_r; cbn [andb Z.b2z Z.add]); done.

(** Case analysis on where [(i, j)] lies with respect to the centre
    [(r, c)]: two or more away, or at one of the five offsets between. *)
Ltac by_position i j r c :=
  assert (i < r - 2 ∨ i = r - 2 ∨ i = r - 1 ∨ i = r ∨ i = r + 1 ∨
          i = r + 2 ∨ r + 2 < i) as [?|[?|[?|[?|[?|[?|?]]]]]] by lia;
  assert (j < c - 2 ∨ j = c - 2 ∨ j = c - 1 ∨ j = c ∨ j = c + 1 ∨
          j = c + 2 ∨ c + 2 < j) as [?|[?|[?|[?|[?|[?|?]]]]]] by lia;
  settle_cells.

(** ** The model on small boards *)

Example Tick_blinker_5x5 :
  Tick blinker_5x5
  = Some [[false; false; false; false; false];
          [false; false; true;  false; false];
          [false; false; true;  false; false];
          [false; false; true;  false; false];
          [false; false; false; false; false]].
Proof. reflexivity. Qed.

Example Tick_twice_blinker_5x5 : Tick blinker_5x5 ≫= Tick = Some blinker_5x5.
Proof. reflexivity. Qed.

Example blinker_5x5_board_of : blinker_5x5 = board_of 5 5 (horizontal_triple 2 2).
Proof. reflexivity. Qed.

Example Tick_block :
  Tick [[false; false; false; false];
        [false; true;  true;  false];
        [false; true;  true;  false];
        [false; false; false; false]]
  = Some [[false; false; false; false];
          [false; true;  true;  false];
          [false; true;  true;  false];
          [false; false; false; false]].
Proof. reflexivity. Qed.

Example Tick_single_cell : Tick [[true]] = Some [[false]].
Proof. reflexivity. Qed.

Example Tick_no_rows : Tick (GameOfLifeBoard 0 7) = Some [].
Proof. reflexivity. Qed.

Example Tick_no_cols : Tick (GameOfLifeBoard 2 0) = Some [[]; []].
Proof. reflexivity. Qed.

Example CountLiveNeighbors_no_rows : CountLiveNeighbors [] 0 0 = None.
Proof. reflexivity. Qed.

Example to_int_wraps :
  to_int (2 ^ 31) = - 2 ^ 31 ∧ to_int (to_size_t (0 + -1)) = -1 ∧
  to_int (2 ^ 32 + 5) = 5.
Proof. repeat split. Qed.

Example InitializeBoard_in_range :
  InitializeBoard [mkPosition2D 1 2; mkPosition2D 0 0] (GameOfLifeBoard 3 3)
  = Returned [[true; false; false]; [false; false; false]; [false; true; false]].
Proof. reflexivity. Qed.

Example InitializeBoard_out_of_range :
  InitializeBoard [mkPosition2D 1 2; mkPosition2D 3 0; mkPosition2D 0 0]
    (GameOfLifeBoard 3 3)
  = Thrown "position does not fit within board boundaries"
      [[false; false; false]; [false; false; false]; [false; true; false]].
Proof. reflexivity. Qed.

(** ** Integer conversions *)

Lemma to_int_range z : - 2 ^ 31 ≤ to_int z < 2 ^ 31.
Proof. unfold to_int. pose proof (Z.mod_pos_bound (z + 2 ^ 31) (2 ^ 32)). lia. Qed.

Lemma to_int_small z : - 2 ^ 31 ≤ z < 2 ^ 31 → to_int z = z.
Proof. intros Hz. unfold to_int. rewrite Z.mod_small; lia. Qed.

Lemma to_int_le z : 0 ≤ z → to_int z ≤ z.
Proof.
  intros Hz. unfold to_int.
  pose proof (Z.mod_le (z + 2 ^ 31) (2 ^ 32)). lia.
Qed.

Lemma to_size_t_small z : 0 ≤ z < 2 ^ 64 → to_size_t z = z.
Proof. intros Hz. unfold to_size_t. rewrite Z.mod_small; lia. Qed.

Lemma to_size_t_neg z : - 2 ^ 64 ≤ z < 0 → to_size_t z = z + 2 ^ 64.
Proof.
  intros Hz. unfold to_size_t.
  rewrite <- (Z.mod_add z 1 (2 ^ 64)) by lia. rewrite Z.mod_small; lia.
Qed.

(** Narrowing a [std::size_t] sum to [int] forgets the reduction modulo
    2^64. *)
Lemma to_int_to_size_t z : to_int (to_size_t z) = to_int z.
Proof.
  unfold to_int, to_size_t. f_equal.
  pose proof (Z.div_mod z (2 ^ 64) ltac:(lia)) as Hz.
  set (q := z `div` 2 ^ 64) in *. set (r := z `mod` 2 ^ 64) in *.
  replace (z + 2 ^ 31) with (r + 2 ^ 31 + q * 2 ^ 32 * 2 ^ 32) by lia.
  by rewrite Z.mod_add by lia.
Qed.

(** ** Vector accesses *)

Lemma at_index_nat {A} (v : list A) (i : nat) : at_index v (Z.of_nat i) = v !! i.
Proof.
  unfold at_index. case_decide as Hi.
  - by rewrite Nat2Z.id.
  - symmetry. apply lookup_ge_None. lia.
Qed.

Lemma at_index_is_Some {A} (v : list A) (i : Z) :
  0 ≤ i < Z.of_nat (length v) → is_Some (at_index v i).
Proof.
  intros Hi. unfold at_index. rewrite decide_True by done.
  apply lookup_lt_is_Some. lia.
Qed.

Lemma at_index_outside {A} (v : list A) (i : Z) :
  ¬ (0 ≤ i < Z.of_nat (length v)) → at_index v i = None.
Proof. intros Hi. unfold at_index. by rewrite decide_False. Qed.

Lemma rectangular_lookup cols m i row :
  rectangular cols m → m !! i = Some row → length row = cols.
Proof. intros Hm Hi. exact (proj1 (Forall_lookup _ m) Hm i row Hi). Qed.

Lemma rectangular_at_index cols m i row :
  rectangular cols m → at_index m i = Some row → length row = cols.
Proof.
  unfold at_index. intros Hm Hi. case_decide; [|done].
  by eapply rectangular_lookup.
Qed.

Lemma Cols_rectangular cols m :
  rectangular cols m → (0 < Rows m)%nat → Cols m = Some cols.
Proof.
  intros Hm Hr. unfold Cols, Rows in *.
  destruct m as [|row0 m']; simpl in *; [lia|].
  f_equal. by eapply (rectangular_lookup cols (row0 :: m') 0%nat).
Qed.

Lemma Cols_empty : Cols [] = None.
Proof. reflexivity. Qed.

(** ** [CountLiveNeighbors] *)

Lemma for_each_sum {A} (f : A → Z) (body : A → Z → option Z) xs acc :
  (∀ a n, body a n = Some (n + f a)) →
  for_each xs body acc = Some (acc + total f xs).
Proof.
  intros Hbody. revert acc. induction xs as [|a xs IH]; intros acc; simpl.
  - rewrite Z.add_0_r. reflexivity.
  - rewrite Hbody. simpl. rewrite IH. apply (f_equal Some). lia.
Qed.

(** On a rectangular board the four range tests make both reads of a
    direction fall inside the grid. *)
Lemma count_step_counted cols m row col d n :
  rectangular cols m →
  count_step m (to_int (Z.of_nat (Rows m))) (to_int (Z.of_nat cols)) row col d n
  = Some (n + Z.b2z (counted m cols row col d)).
Proof.
  intros Hm. unfold count_step, counted.
  set (nr := to_int (to_size_t (Z.of_nat row + d.1))).
  set (nc := to_int (to_size_t (Z.of_nat col + d.2))).
  destruct ((0 <=? nr) && (nr <? to_int (Z.of_nat (Rows m))) &&
            (0 <=? nc) && (nc <? to_int (Z.of_nat cols))) eqn:Hview; simpl.
  2: { apply (f_equal Some). lia. }
  apply andb_prop in Hview as [Hview Hc2].
  apply andb_prop in Hview as [Hview Hc1].
  apply andb_prop in Hview as [Hr1 Hr2].
  apply Z.leb_le in Hr1, Hc1. apply Z.ltb_lt in Hr2, Hc2.
  pose proof (to_int_le (Z.of_nat (Rows m)) ltac:(lia)) as Hrows.
  pose proof (to_int_le (Z.of_nat cols) ltac:(lia)) as Hcols.
  pose proof (to_int_range (Z.of_nat (Rows m))).
  pose proof (to_int_range (Z.of_nat cols)).
  rewrite !to_size_t_small by lia.
  unfold live_at.
  destruct (at_index_is_Some m nr) as [r Hr]; [unfold Rows in *; lia|].
  rewrite Hr. simpl.
  pose proof (rectangular_at_index _ _ _ _ Hm Hr) as Hlen.
  destruct (at_index_is_Some r nc) as [alive Ha]; [lia|].
  rewrite Ha. simpl. destruct alive; simpl; apply (f_equal Some); lia.
Qed.

Lemma CountLiveNeighbors_counted cols m row col :
  rectangular cols m → (0 < Rows m)%nat →
  CountLiveNeighbors m row col
  = Some (total (λ d, Z.b2z (counted m cols row col d)) kDirections).
Proof.
  intros Hm Hr. unfold CountLiveNeighbors.
  rewrite (Cols_rectangular cols) by done. cbn [mbind option_bind].
  rewrite (for_each_sum (λ d, Z.b2z (counted m cols row col d))); [done|].
  intros d n. by apply count_step_counted.
Qed.

Lemma CountLiveNeighbors_empty row col : CountLiveNeighbors [] row col = None.
Proof. reflexivity. Qed.

Lemma CountLiveNeighbors_range cols m row col n :
  rectangular cols m → CountLiveNeighbors m row col = Some n → 0 ≤ n ≤ 8.
Proof.
  intros Hm. destruct (decide (0 < Rows m)%nat) as [Hr|Hr].
  - rewrite (CountLiveNeighbors_counted cols) by done.
    intros [= <-]. unfold kDirections, total, foldr.
    repeat match goal with |- context [Z.b2z ?b] => destruct b; simpl end; lia.
  - destruct m; [done|]. unfold Rows in Hr. simpl in Hr. lia.
Qed.

(** ** [Tick] computes the next generation *)

Section loop_buffer.
Context {A : Type}.
Implicit Types new old : list A.

Lemma buffer_at_start new old : buffer_at 0 new old = old.
Proof. unfold buffer_at. by rewrite take_0, drop_0. Qed.

Lemma buffer_at_end new old :
  length new = length old → buffer_at (length old) new old = new.
Proof.
  intros Hlen. unfold buffer_at.
  rewrite drop_all, app_nil_r, <- Hlen. apply firstn_all.
Qed.

Lemma buffer_at_lookup j new old :
  length new = length old → buffer_at j new old !! j = old !! j.
Proof.
  intros Hlen. unfold buffer_at.
  destruct (decide (j < length old)%nat) as [Hj|Hj].
  - rewrite lookup_app_r by (rewrite length_take; lia).
    rewrite length_take, lookup_drop. f_equal. lia.
  - rewrite (lookup_ge_None_2 old) by lia.
    apply lookup_ge_None_2. rewrite length_app, length_take, length_drop. lia.
Qed.

Lemma buffer_at_step j new old v :
  length new = length old → new !! j = Some v →
  <[j := v]> (buffer_at j new old) = buffer_at (S j) new old.
Proof.
  intros Hlen Hv. unfold buffer_at.
  pose proof (lookup_lt_Some _ _ _ Hv) as Hj.
  destruct (lookup_lt_is_Some_2 old j ltac:(lia)) as [w Hw].
  rewrite insert_app_r_alt by (rewrite length_take; lia).
  rewrite length_take, (drop_S old w j) by done.
  replace (j - j `min` length new)%nat with 0%nat by lia. simpl.
  rewrite (take_S_r new j v) by done. by rewrite <- app_assoc.
Qed.
End loop_buffer.

Lemma cell_Some_inv m i j alive :
  cell m i j = Some alive → ∃ row, m !! i = Some row ∧ row !! j = Some alive.
Proof.
  unfold cell. destruct (m !! i) as [row|] eqn:Hrow; simpl; [|done]. eauto.
Qed.

Lemma store_Some tmp i j v row :
  tmp !! i = Some row → (j < length row)%nat →
  store tmp i j v = Some (<[i := <[j := v]> row]> tmp).
Proof. intros Hrow Hj. unfold store. rewrite Hrow. simpl. by rewrite decide_True. Qed.

(** One cell: whatever branch is taken, the buffer ends with the
    rule's value at [(i, j)] and is unchanged elsewhere. *)
Lemma tick_cell_transition cols m i j tmp row alive :
  rectangular cols m →
  cell m i j = Some alive →
  tmp !! i = Some row → row !! j = Some alive →
  tick_cell m i j tmp
  = Some (<[i := <[j := transition alive (neighbors_seen m i j)]> row]> tmp).
Proof.
  intros Hm Hcell Htmp Hrow.
  assert (0 < Rows m)%nat as Hrows.
  { apply cell_Some_inv in Hcell as (r & Hr & _).
    apply lookup_lt_Some in Hr. unfold Rows. lia. }
  pose proof (lookup_lt_Some _ _ _ Hrow) as Hj.
  unfold tick_cell, neighbors_seen.
  rewrite (CountLiveNeighbors_counted cols) by done.
  set (n := total _ _). rewrite Hcell. cbn [mbind option_bind default from_option id].
  assert (Some tmp = Some (<[i := <[j := alive]> row]> tmp)) as Hkeep.
  { by rewrite (list_insert_id row), (list_insert_id tmp). }
  unfold transition. destruct alive.
  - destruct (Z.ltb_spec n 2); [|destruct (Z.ltb_spec 3 n)].
    + rewrite bool_decide_eq_false_2 by lia. by apply store_Some.
    + rewrite bool_decide_eq_false_2 by lia. by apply store_Some.
    + rewrite bool_decide_eq_true_2 by lia. done.
  - destruct (Z.eqb_spec n 3).
    + rewrite bool_decide_eq_true_2 by lia. by apply store_Some.
    + rewrite bool_decide_eq_false_2 by lia. done.
Qed.

Lemma next_generation_rows m : next_generation m = imap (next_row m) m.
Proof. reflexivity. Qed.

Lemma length_next_generation m : length (next_generation m) = length m.
Proof. apply length_imap. Qed.

Lemma length_next_row m i row : length (next_row m i row) = length row.
Proof. apply length_imap. Qed.

(** Inner loop, from column [j] on. *)
Lemma tick_row_from cols m i old k : ∀ j tmp,
  rectangular cols m → m !! i = Some old →
  (j + k = length old)%nat →
  tmp !! i = Some (buffer_at j (next_row m i old) old) →
  for_each (seq j k) (tick_cell m i) tmp = Some (<[i := next_row m i old]> tmp).
Proof.
  induction k as [|k IH]; intros j tmp Hm Hold Hjk Htmp; simpl.
  - replace j with (length old) in Htmp by lia.
    rewrite buffer_at_end in Htmp by apply length_next_row.
    by rewrite list_insert_id.
  - destruct (lookup_lt_is_Some_2 old j ltac:(lia)) as [alive Halive].
    assert (cell m i j = Some alive) as Hcell.
    { unfold cell. by rewrite Hold. }
    assert (next_row m i old !! j
            = Some (transition alive (neighbors_seen m i j))) as Hnew.
    { unfold next_row. by rewrite list_lookup_imap, Halive. }
    rewrite (tick_cell_transition cols m i j tmp _ alive Hm Hcell Htmp).
    2: { by rewrite buffer_at_lookup by apply length_next_row. }
    cbn [mbind option_bind].
    rewrite buffer_at_step by (done || apply length_next_row).
    rewrite (IH (S j)); try done; try lia.
    + by rewrite list_insert_insert_eq.
    + apply list_lookup_insert_eq. by eapply lookup_lt_Some.
Qed.

Lemma tick_row_next cols m i old tmp :
  rectangular cols m → m !! i = Some old → tmp !! i = Some old →
  tick_row m i tmp = Some (<[i := next_row m i old]> tmp).
Proof.
  intros Hm Hold Htmp. unfold tick_row.
  rewrite (Cols_rectangular cols) by (done || apply lookup_lt_Some in Hold; unfold Rows; lia).
  cbn [mbind option_bind].
  apply (tick_row_from cols); [done|done| |].
  - pose proof (rectangular_lookup _ _ _ _ Hm Hold). lia.
  - by rewrite buffer_at_start.
Qed.

(** Outer loop, from row [i] on. *)
Lemma tick_rows_from cols m k : ∀ i tmp,
  rectangular cols m →
  (i + k = length m)%nat →
  tmp = buffer_at i (next_generation m) m →
  for_each (seq i k) (tick_row m) tmp = Some (next_generation m).
Proof.
  induction k as [|k IH]; intros i tmp Hm Hik ->; simpl.
  - replace i with (length m) by lia.
    by rewrite buffer_at_end by apply length_next_generation.
  - destruct (lookup_lt_is_Some_2 m i ltac:(lia)) as [old Hold].
    rewrite (tick_row_next cols m i old); try done.
    2: { by rewrite buffer_at_lookup by apply length_next_generation. }
    cbn [mbind option_bind].
    apply IH; [done|lia|].
    apply buffer_at_step; [apply length_next_generation|].
    by rewrite next_generation_rows, list_lookup_imap, Hold.
Qed.

(** [Tick] returns, and returns the next generation of its snapshot. *)
Lemma Tick_next_generation m :
  valid_board m → Tick m = Some (next_generation m).
Proof.
  intros [cols Hm]. unfold Tick.
  apply (tick_rows_from cols); [done|unfold Rows; lia|].
  by rewrite buffer_at_start.
Qed.

(** ** Shape of the grid *)

Lemma rectangular_GameOfLifeBoard rows cols :
  rectangular cols (GameOfLifeBoard rows cols).
Proof.
  unfold rectangular, GameOfLifeBoard. apply Forall_replicate, length_replicate.
Qed.

Lemma rectangular_next_generation cols m :
  rectangular cols m → rectangular cols (next_generation m).
Proof.
  intros Hm. apply Forall_lookup. intros i row.
  rewrite next_generation_rows, list_lookup_imap.
  destruct (m !! i) as [old|] eqn:Hold; simpl; [|done].
  intros [= <-]. rewrite length_next_row. by eapply rectangular_lookup.
Qed.

Lemma rectangular_insert cols m i row :
  rectangular cols m → length row = cols → rectangular cols (<[i := row]> m).
Proof. intros Hm Hrow. by apply Forall_insert. Qed.

Lemma assign_shape cols m m' i j v :
  rectangular cols m → assign m i j v = Some m' →
  length m' = length m ∧ rectangular cols m'.
Proof.
  intros Hm. unfold assign, subscript.
  destruct (at_index m _) as [row|] eqn:Hrow; simpl; [|done].
  case_decide; [|done]. intros [= <-]. split.
  - apply length_insert.
  - apply rectangular_insert; [done|].
    rewrite length_insert. by eapply rectangular_at_index.
Qed.

Lemma Cols_same_shape cols m m' :
  rectangular cols m → rectangular cols m' → length m' = length m →
  Cols m' = Cols m.
Proof.
  intros Hm Hm' Hlen. destruct m as [|row0 m0], m' as [|row0' m0']; try done.
  rewrite !(Cols_rectangular cols); try done; unfold Rows; simpl; lia.
Qed.

Lemma reachable_shape rows cols m :
  reachable rows cols m → length m = rows ∧ rectangular cols m.
Proof.
  induction 1 as [|m m' _ [IHlen IHm] Htick|m m' i j v _ [IHlen IHm] _ _ Hassign].
  - split; [apply length_replicate|apply rectangular_GameOfLifeBoard].
  - rewrite Tick_next_generation in Htick by by exists cols.
    injection Htick as <-. split.
    + by rewrite length_next_generation.
    + by apply rectangular_next_generation.
  - destruct (assign_shape cols m m' i j v IHm Hassign) as [Hlen Hm'].
    split; [lia|done].
Qed.

Lemma cell_GameOfLifeBoard rows cols i j :
  (i < rows)%nat → (j < cols)%nat →
  cell (GameOfLifeBoard rows cols) i j = Some false.
Proof.
  intros Hi Hj. unfold cell, GameOfLifeBoard.
  rewrite lookup_replicate_2 by done. simpl. by apply lookup_replicate_2.
Qed.

Lemma cell_next_generation m i j :
  cell (next_generation m) i j
  = (λ alive, transition alive (neighbors_seen m i j)) <$> cell m i j.
Proof.
  unfold cell. rewrite next_generation_rows, list_lookup_imap.
  destruct (m !! i) as [row|]; simpl; [|done].
  unfold next_row. by rewrite list_lookup_imap.
Qed.

(** ** The all-dead board *)

Lemma GameOfLifeBoard_cells_dead rows cols : all_dead (GameOfLifeBoard rows cols).
Proof.
  intros i j alive Hcell. apply cell_Some_inv in Hcell as (row & Hrow & Halive).
  apply lookup_replicate in Hrow as [-> _].
  by apply lookup_replicate in Halive as [-> _].
Qed.

Lemma live_at_cell m (i j : nat) :
  live_at m (Z.of_nat i) (Z.of_nat j) = default false (cell m i j).
Proof.
  unfold live_at, cell. rewrite at_index_nat.
  destruct (m !! i) as [row|]; simpl; [|done]. by rewrite at_index_nat.
Qed.

Lemma live_at_inside m r c :
  live_at m r c = true → 0 ≤ r ∧ 0 ≤ c ∧ cell m (Z.to_nat r) (Z.to_nat c) = Some true.
Proof.
  unfold live_at, cell, at_index. case_decide as Hr; simpl; [|done].
  destruct (m !! Z.to_nat r) as [row|]; simpl; [|done].
  case_decide as Hc; simpl; [|done].
  destruct (row !! Z.to_nat c) as [[]|]; simpl; try done.
  intros _. repeat split; (done || lia).
Qed.

Lemma all_dead_live_at m r c : all_dead m → live_at m r c = false.
Proof.
  intros Hdead. destruct (live_at m r c) eqn:Hlive; [|done].
  apply live_at_inside in Hlive as (_ & _ & Hcell). by apply Hdead in Hcell.
Qed.

Lemma total_zero {A} (f : A → Z) xs : (∀ a, f a = 0) → total f xs = 0.
Proof.
  intros Hf. induction xs as [|a xs IH]; simpl; [done|]. rewrite Hf, IH. done.
Qed.

Lemma counted_dead m cols row col d : all_dead m → counted m cols row col d = false.
Proof.
  intros Hdead. unfold counted. rewrite all_dead_live_at by done.
  apply andb_false_r.
Qed.

Lemma neighbors_seen_counted cols m i j :
  rectangular cols m → (0 < Rows m)%nat →
  neighbors_seen m i j = total (λ d, Z.b2z (counted m cols i j d)) kDirections.
Proof.
  intros Hm Hr. unfold neighbors_seen.
  by rewrite (CountLiveNeighbors_counted cols).
Qed.

Lemma neighbors_seen_empty i j : neighbors_seen [] i j = 0.
Proof. reflexivity. Qed.

Lemma neighbors_seen_dead m i j :
  valid_board m → all_dead m → neighbors_seen m i j = 0.
Proof.
  intros [cols Hm] Hdead. destruct m as [|row0 m0]; [done|].
  rewrite (neighbors_seen_counted cols) by (done || unfold Rows; simpl; lia).
  apply total_zero. intros d. by rewrite counted_dead.
Qed.

Lemma next_generation_dead m :
  valid_board m → all_dead m → next_generation m = m.
Proof.
  intros Hm Hdead. rewrite next_generation_rows.
  apply list_eq. intros i. rewrite list_lookup_imap.
  destruct (m !! i) as [row|] eqn:Hrow; simpl; [|done]. f_equal.
  apply list_eq. intros j. unfold next_row. rewrite list_lookup_imap.
  destruct (row !! j) as [alive|] eqn:Halive; simpl; [|done]. f_equal.
  assert (alive = false) as ->.
  { apply (Hdead i j). unfold cell. by rewrite Hrow. }
  by rewrite neighbors_seen_dead.
Qed.

(** ** [CountLiveNeighbors] against the geometric count *)

Lemma neighbor_offsets_list :
  neighbor_offsets
  = [(-1, -1); (-1, 0); (-1, 1); (0, -1); (0, 1); (1, -1); (1, 0); (1, 1)].
Proof. reflexivity. Qed.

Lemma length_filter_total {A} (P : A → Prop) `{∀ a, Decision (P a)} (xs : list A) :
  Z.of_nat (length (filter P xs)) = total (λ a, Z.b2z (bool_decide (P a))) xs.
Proof.
  induction xs as [|a xs IH]; simpl; [done|].
  rewrite filter_cons. destruct (decide (P a)) as [Ha|Ha].
  - rewrite bool_decide_eq_true_2 by done. cbn [length Z.b2z]. lia.
  - rewrite bool_decide_eq_false_2 by done. cbn [Z.b2z]. lia.
Qed.

Lemma live_neighbors_total m r c :
  Z.of_nat (live_neighbors m r c)
  = total (λ d, Z.b2z (live_at m (Z.of_nat r + d.1) (Z.of_nat c + d.2)))
      neighbor_offsets.
Proof.
  unfold live_neighbors. rewrite length_filter_total.
  induction neighbor_offsets as [|d ds IH]; simpl; [done|].
  rewrite IH. f_equal. by destruct (live_at _ _ _).
Qed.

Lemma live_at_outside_rows m r c :
  ¬ (0 ≤ r < Z.of_nat (Rows m)) → live_at m r c = false.
Proof. intros Hr. unfold live_at. by rewrite at_index_outside. Qed.

Lemma live_at_outside_cols cols m r c :
  rectangular cols m → ¬ (0 ≤ c < Z.of_nat cols) → live_at m r c = false.
Proof.
  intros Hm Hc. unfold live_at.
  destruct (at_index m r) as [row|] eqn:Hrow; simpl; [|done].
  rewrite at_index_outside; [done|].
  by rewrite (rectangular_at_index cols m r row).
Qed.

(** With both dimensions representable as [int], the narrowed coordinates
    are the geometric ones. *)
Lemma counted_live_at cols m row col d :
  rectangular cols m →
  Z.of_nat (Rows m) < 2 ^ 31 → Z.of_nat cols < 2 ^ 31 →
  (row < Rows m)%nat → (col < cols)%nat →
  -1 ≤ d.1 ≤ 1 → -1 ≤ d.2 ≤ 1 →
  counted m cols row col d
  = live_at m (Z.of_nat row + d.1) (Z.of_nat col + d.2).
Proof.
  intros Hm Hrows Hcols Hrow Hcol Hd1 Hd2. unfold counted.
  rewrite !to_int_to_size_t, !to_int_small by lia.
  destruct (decide (0 ≤ Z.of_nat row + d.1 < Z.of_nat (Rows m))) as [Hr|Hr];
    [destruct (decide (0 ≤ Z.of_nat col + d.2 < Z.of_nat cols)) as [Hc|Hc]|].
  - replace (0 <=? _) with true by (symmetry; apply Z.leb_le; lia).
    replace (_ <? Z.of_nat (Rows m)) with true by (symmetry; apply Z.ltb_lt; lia).
    replace (0 <=? _) with true by (symmetry; apply Z.leb_le; lia).
    replace (_ <? Z.of_nat cols) with true by (symmetry; apply Z.ltb_lt; lia).
    done.
  - rewrite (live_at_outside_cols cols) by done. apply andb_false_r.
  - rewrite live_at_outside_rows by done. apply andb_false_r.
Qed.

Lemma CountLiveNeighbors_geometric cols m row col :
  rectangular cols m →
  Z.of_nat (Rows m) < 2 ^ 31 → Z.of_nat cols < 2 ^ 31 →
  (row < Rows m)%nat → (col < cols)%nat →
  CountLiveNeighbors m row col = Some (Z.of_nat (live_neighbors m row col)).
Proof.
  intros Hm Hrows Hcols Hrow Hcol.
  rewrite (CountLiveNeighbors_counted cols) by (done || lia).
  rewrite live_neighbors_total, neighbor_offsets_list.
  unfold kDirections, total, foldr.
  rewrite !(counted_live_at cols) by (done || simpl; lia).
  apply (f_equal Some). simpl. lia.
Qed.

(** A column count that narrows to a non-positive [int] hides every
    neighbor. *)
Lemma counted_narrowed_cols m cols row col d :
  to_int (Z.of_nat cols) ≤ 0 → counted m cols row col d = false.
Proof.
  intros Hcols. unfold counted.
  set (nc := to_int (to_size_t (Z.of_nat col + d.2))).
  destruct (Z.leb_spec 0 nc); [|by rewrite !andb_false_r].
  replace (nc <? _) with false by (symmetry; apply Z.ltb_ge; lia).
  by rewrite !andb_false_r.
Qed.

Lemma neighbors_seen_narrowed_cols cols m i j :
  rectangular cols m → to_int (Z.of_nat cols) ≤ 0 → neighbors_seen m i j = 0.
Proof.
  intros Hm Hcols. destruct m as [|row0 m0]; [done|].
  rewrite (neighbors_seen_counted cols) by (done || unfold Rows; simpl; lia).
  apply total_zero. intros d. by rewrite counted_narrowed_cols.
Qed.

(** ** Boards too wide for [int] *)

Lemma length_dead_cells count :
  0 ≤ count → Z.of_nat (length (dead_cells count)) = count.
Proof. intros Hc. unfold dead_cells. rewrite length_replicate. lia. Qed.

Lemma live_at_first_row (row0 : CellStateVec) (j : nat) :
  live_at [row0] 0 (Z.of_nat j) = default false (row0 !! j).
Proof. exact (live_at_cell [row0] 0 j). Qed.

Lemma live_neighbors_pair tail :
  live_neighbors [true :: true :: tail] 0 0 = 1%nat.
Proof.
  apply Nat2Z.inj. rewrite live_neighbors_total, neighbor_offsets_list.
  unfold total, foldr. cbn [fst snd Z.of_nat Z.add].
  rewrite !(live_at_outside_rows _ (-1)) by (unfold Rows; simpl; lia).
  rewrite !(live_at_outside_rows _ 1) by (unfold Rows; simpl; lia).
  rewrite (live_at_outside_cols (length (true :: true :: tail)) _ 0 (-1))
    by (repeat constructor || lia).
  by rewrite (live_at_first_row _ 1).
Qed.

Lemma CountLiveNeighbors_narrowed_cols cols m row col :
  rectangular cols m → (0 < Rows m)%nat → to_int (Z.of_nat cols) ≤ 0 →
  CountLiveNeighbors m row col = Some 0.
Proof.
  intros Hm Hrows Hcols. rewrite (CountLiveNeighbors_counted cols) by done.
  f_equal. apply total_zero. intros d. by rewrite counted_narrowed_cols.
Qed.

Lemma to_int_2_31 : to_int (2 ^ 31) = - 2 ^ 31.
Proof. reflexivity. Qed.

Lemma wide_row_narrowed a b tail :
  Z.of_nat (length tail) = 2 ^ 31 - 2 →
  to_int (Z.of_nat (length (a :: b :: tail : CellStateVec))) ≤ 0.
Proof.
  intros Htail. cbn [length]. rewrite !Nat2Z.inj_succ, Htail.
  replace (Z.succ (Z.succ (2 ^ 31 - 2))) with (2 ^ 31) by lia.
  rewrite to_int_2_31. lia.
Qed.

Lemma Tick_wide_rows tail :
  Z.of_nat (length tail) = 2 ^ 31 - 3 →
  ∃ m', Tick [false :: false :: false :: tail;
              true :: true :: true :: tail;
              false :: false :: false :: tail] = Some m' ∧
        cell m' 0 1 = Some false ∧ cell m' 1 1 = Some false ∧
        cell m' 2 1 = Some false.
Proof.
  intros Htail.
  set (m := [false :: false :: false :: tail; true :: true :: true :: tail;
             false :: false :: false :: tail]).
  assert (rectangular (3 + length tail) m) as Hm by repeat constructor.
  assert (to_int (Z.of_nat (3 + length tail)) ≤ 0) as Hcols.
  { rewrite Nat2Z.inj_add, Htail.
    change (to_int (2 ^ 31) ≤ 0). rewrite to_int_2_31. lia. }
  exists (next_generation m).
  split; [apply Tick_next_generation; by eexists|].
  rewrite !cell_next_generation.
  rewrite !(neighbors_seen_narrowed_cols _ _ _ _ Hm Hcols).
  repeat split.
Qed.

Lemma live_at_at m r c (i j : nat) :
  r = Z.of_nat i → c = Z.of_nat j → live_at m r c = default false (cell m i j).
Proof. intros -> ->. apply live_at_cell. Qed.

(** On the three wide rows the dead cell above the middle of the triple has
    three live cells among its eight surrounding positions. *)
Lemma live_neighbors_wide_rows tail :
  live_neighbors [false :: false :: false :: tail;
                  true :: true :: true :: tail;
                  false :: false :: false :: tail] 0 1 = 3%nat.
Proof.
  set (m := [false :: false :: false :: tail; true :: true :: true :: tail;
             false :: false :: false :: tail]).
  apply Nat2Z.inj. rewrite live_neighbors_total, neighbor_offsets_list.
  unfold total, foldr. cbn [fst snd].
  change (Z.of_nat 0 + -1) with (-1). change (Z.of_nat 0 + 0) with 0.
  change (Z.of_nat 0 + 1) with 1. change (Z.of_nat 1 + -1) with 0.
  change (Z.of_nat 1 + 0) with 1. change (Z.of_nat 1 + 1) with 2.
  rewrite !(live_at_outside_rows m (-1)) by (unfold Rows; simpl; lia).
  rewrite (live_at_at m 0 0 0 0), (live_at_at m 0 2 0 2) by done.
  rewrite (live_at_at m 1 0 1 0), (live_at_at m 1 1 1 1),
    (live_at_at m 1 2 1 2) by done.
  reflexivity.
Qed.

Lemma cell_reference_generation m i j :
  cell (reference_generation m) i j
  = (λ alive, transition alive (Z.of_nat (live_neighbors m i j))) <$> cell m i j.
Proof.
  unfold cell, reference_generation. rewrite list_lookup_imap.
  destruct (m !! i) as [row|]; simpl; [|done].
  by rewrite list_lookup_imap.
Qed.

(** In the [int] range the grid [Tick] returns is the reference one. *)
Lemma next_generation_reference cols m :
  rectangular cols m →
  Z.of_nat (Rows m) < 2 ^ 31 → Z.of_nat cols < 2 ^ 31 →
  next_generation m = reference_generation m.
Proof.
  intros Hm Hrows Hcols. unfold next_generation, reference_generation.
  apply imap_ext. intros i row Hrow.
  apply imap_ext. intros j alive Halive. simpl.
  pose proof (rectangular_lookup cols m i row Hm Hrow) as Hlen.
  apply lookup_lt_Some in Hrow, Halive.
  unfold neighbors_seen.
  rewrite (CountLiveNeighbors_geometric cols); (done || unfold Rows; lia).
Qed.

(** The three wide rows with the triple: what [Tick] and the reference make
    of the dead cell above the middle of the triple. *)
Lemma wide_rows_no_birth tail :
  Z.of_nat (length tail) = 2 ^ 31 - 3 →
  cell [false :: false :: false :: tail; true :: true :: true :: tail;
        false :: false :: false :: tail] 0 1 = Some false ∧
  cell (reference_generation
          [false :: false :: false :: tail; true :: true :: true :: tail;
           false :: false :: false :: tail]) 0 1 = Some true ∧
  ∃ m', Tick [false :: false :: false :: tail; true :: true :: true :: tail;
              false :: false :: false :: tail] = Some m' ∧
        cell m' 0 1 = Some false ∧
        m' ≠ reference_generation
               [false :: false :: false :: tail; true :: true :: true :: tail;
                false :: false :: false :: tail].
Proof.
  intros Htail.
  set (m := [false :: false :: false :: tail; true :: true :: true :: tail;
             false :: false :: false :: tail]).
  assert (cell (reference_generation m) 0 1 = Some true) as Href.
  { rewrite cell_reference_generation. unfold m.
    by rewrite live_neighbors_wide_rows. }
  split; [done|]. split; [done|].
  destruct (Tick_wide_rows _ Htail) as (m' & Htick & Hcell & _).
  exists m'. split; [done|]. split; [done|].
  intros ->. fold m in Hcell. rewrite Href in Hcell. discriminate Hcell.
Qed.

(** ** Boards given by a predicate *)

Lemma lookup_board_of rows cols f (i : nat) :
  (i < rows)%nat →
  board_of rows cols f !! i
  = Some ((λ j, f (Z.of_nat i) (Z.of_nat j)) <$> seq 0 cols).
Proof.
  intros Hi. unfold board_of.
  by rewrite list_lookup_fmap, lookup_seq_lt by done.
Qed.

Lemma Rows_board_of rows cols f : Rows (board_of rows cols f) = rows.
Proof. unfold Rows, board_of. by rewrite length_fmap, length_seq. Qed.

Lemma rectangular_board_of rows cols f : rectangular cols (board_of rows cols f).
Proof.
  apply Forall_lookup. intros i row Hrow.
  unfold board_of in Hrow. rewrite list_lookup_fmap in Hrow.
  destruct (seq 0 rows !! i) as [k|]; simpl in Hrow; [|done].
  injection Hrow as <-. by rewrite length_fmap, length_seq.
Qed.

Lemma cell_board_of rows cols f (i j : nat) :
  (i < rows)%nat → (j < cols)%nat →
  cell (board_of rows cols f) i j = Some (f (Z.of_nat i) (Z.of_nat j)).
Proof.
  intros Hi Hj. unfold cell. rewrite lookup_board_of by done. simpl.
  by rewrite list_lookup_fmap, lookup_seq_lt by done.
Qed.

Lemma live_at_board_of rows cols f r c :
  live_at (board_of rows cols f) r c
  = bool_decide (0 ≤ r < Z.of_nat rows ∧ 0 ≤ c < Z.of_nat cols) && f r c.
Proof.
  destruct (decide (0 ≤ r < Z.of_nat rows)) as [Hr|Hr];
    [destruct (decide (0 ≤ c < Z.of_nat cols)) as [Hc|Hc]|].
  - rewrite bool_decide_eq_true_2 by done.
    rewrite <- (Z2Nat.id r), <- (Z2Nat.id c) by lia.
    rewrite live_at_cell, cell_board_of by lia. done.
  - rewrite bool_decide_eq_false_2 by tauto.
    apply (live_at_outside_cols cols); [apply rectangular_board_of|done].
  - rewrite bool_decide_eq_false_2 by tauto.
    apply live_at_outside_rows. by rewrite Rows_board_of.
Qed.

Lemma board_of_ext rows cols f g :
  (∀ i j : nat, (i < rows)%nat → (j < cols)%nat →
     f (Z.of_nat i) (Z.of_nat j) = g (Z.of_nat i) (Z.of_nat j)) →
  board_of rows cols f = board_of rows cols g.
Proof.
  intros Hfg. unfold board_of.
  apply list_fmap_ext. intros k i [-> Hi]%lookup_seq.
  apply list_fmap_ext. intros k' j [-> Hj]%lookup_seq.
  by apply Hfg.
Qed.

(** One [Tick] of a board given by a predicate, both dimensions being
    representable as [int]. *)
Lemma Tick_board_of rows cols f g :
  Z.of_nat rows < 2 ^ 31 → Z.of_nat cols < 2 ^ 31 →
  (∀ i j : nat, (i < rows)%nat → (j < cols)%nat →
     transition (f (Z.of_nat i) (Z.of_nat j))
       (Z.of_nat (live_neighbors (board_of rows cols f) i j))
     = g (Z.of_nat i) (Z.of_nat j)) →
  Tick (board_of rows cols f) = Some (board_of rows cols g).
Proof.
  intros Hrows Hcols Hstep.
  pose proof (rectangular_board_of rows cols f) as Hm.
  rewrite Tick_next_generation by by exists cols.
  f_equal. apply list_eq. intros i.
  rewrite next_generation_rows, list_lookup_imap.
  destruct (decide (i < rows)%nat) as [Hi|Hi].
  2: { rewrite !(lookup_ge_None_2 (board_of _ _ _)); [done|..];
       fold (Rows (board_of rows cols g)); fold (Rows (board_of rows cols f));
       rewrite Rows_board_of; lia. }
  rewrite !lookup_board_of by done. simpl. f_equal.
  apply list_eq. intros j. unfold next_row.
  rewrite list_lookup_imap, !list_lookup_fmap.
  destruct (seq 0 cols !! j) as [k|] eqn:Hk; simpl; [|done].
  apply lookup_seq in Hk as [-> Hj]. f_equal. simpl.
  unfold neighbors_seen.
  rewrite (CountLiveNeighbors_geometric cols), <- Hstep;
    rewrite ?Rows_board_of; done.
Qed.

Lemma live_neighbors_board_of rows cols f (i j : nat) :
  Z.of_nat (live_neighbors (board_of rows cols f) i j)
  = total (λ d,
      Z.b2z (bool_decide (0 ≤ Z.of_nat i + d.1 < Z.of_nat rows ∧
                          0 ≤ Z.of_nat j + d.2 < Z.of_nat cols)
             && f (Z.of_nat i + d.1) (Z.of_nat j + d.2))) neighbor_offsets.
Proof.
  rewrite live_neighbors_total.
  induction neighbor_offsets as [|d ds IH]; simpl; [done|].
  by rewrite IH, live_at_board_of.
Qed.

Lemma Tick_horizontal_triple rows cols r c :
  Z.of_nat rows < 2 ^ 31 → Z.of_nat cols < 2 ^ 31 →
  1 ≤ r → r + 1 < Z.of_nat rows → 1 ≤ c → c + 1 < Z.of_nat cols →
  Tick (board_of rows cols (horizontal_triple r c))
  = Some (board_of rows cols (vertical_triple r c)).
Proof.
  intros Hrows Hcols Hr1 Hr2 Hc1 Hc2.
  apply Tick_board_of; [done|done|]. intros i j Hi Hj.
  rewrite live_neighbors_board_of, neighbor_offsets_list.
  unfold total, foldr, transition, horizontal_triple, vertical_triple.
  cbn [fst snd].
  assert (0 ≤ Z.of_nat i < Z.of_nat rows) as Hzi by lia.
  assert (0 ≤ Z.of_nat j < Z.of_nat cols) as Hzj by lia.
  clear Hi Hj Hrows Hcols.
  generalize dependent (Z.of_nat i). generalize dependent (Z.of_nat j).
  generalize dependent (Z.of_nat rows). generalize dependent (Z.of_nat cols).
  clear i j rows cols. intros zcols Hc2 zrows Hr2 zj Hzj zi Hzi.
  by_position zi zj r c.
Qed.

Lemma Tick_vertical_triple rows cols r c :
  Z.of_nat rows < 2 ^ 31 → Z.of_nat cols < 2 ^ 31 →
  1 ≤ r → r + 1 < Z.of_nat rows → 1 ≤ c → c + 1 < Z.of_nat cols →
  Tick (board_of rows cols (vertical_triple r c))
  = Some (board_of rows cols (horizontal_triple r c)).
Proof.
  intros Hrows Hcols Hr1 Hr2 Hc1 Hc2.
  apply Tick_board_of; [done|done|]. intros i j Hi Hj.
  rewrite live_neighbors_board_of, neighbor_offsets_list.
  unfold total, foldr, transition, horizontal_triple, vertical_triple.
  cbn [fst snd].
  assert (0 ≤ Z.of_nat i < Z.of_nat rows) as Hzi by lia.
  assert (0 ≤ Z.of_nat j < Z.of_nat cols) as Hzj by lia.
  clear Hi Hj Hrows Hcols.
  generalize dependent (Z.of_nat i). generalize dependent (Z.of_nat j).
  generalize dependent (Z.of_nat rows). generalize dependent (Z.of_nat cols).
  clear i j rows cols. intros zcols Hc2 zrows Hr2 zj Hzj zi Hzi.
  by_position zi zj r c.
Qed.

(** The blinker has period 2 on every board whose dimensions are
    representable as [int] and that leaves a free row and column around
    the triple. *)
Lemma blinker_period_2 rows cols r c :
  Z.of_nat rows < 2 ^ 31 → Z.of_nat cols < 2 ^ 31 →
  1 ≤ r → r + 1 < Z.of_nat rows → 1 ≤ c → c + 1 < Z.of_nat cols →
  Tick (board_of rows cols (horizontal_triple r c))
    = Some (board_of rows cols (vertical_triple r c)) ∧
  Tick (board_of rows cols (horizontal_triple r c)) ≫= Tick
    = Some (board_of rows cols (horizontal_triple r c)).
Proof.
  intros Hrows Hcols Hr1 Hr2 Hc1 Hc2.
  rewrite Tick_horizontal_triple by done. split; [done|].
  cbn [mbind option_bind]. by apply Tick_vertical_triple.
Qed.

(** ** An isolated live cell in the corner *)

Lemma counted_corner cols m :
  (∀ i j alive, cell m i j = Some alive → (i, j) ≠ (0, 0)%nat → alive = false) →
  Forall (λ d, counted m cols 0 0 d = false) kDirections.
Proof.
  intros Hothers.
  assert (∀ i j, (i, j) ≠ (0, 0)%nat →
            live_at m (Z.of_nat i) (Z.of_nat j) = false) as Hdead.
  { intros i j Hij. rewrite live_at_cell.
    destruct (cell m i j) as [alive|] eqn:Hcell; [|done]. simpl. eauto. }
  unfold kDirections. repeat constructor; unfold counted; cbn [fst snd].
  all: change (Z.of_nat 0 + 0) with (Z.of_nat 0).
  all: change (Z.of_nat 0 + 1) with (Z.of_nat 1).
  all: change (to_int (to_size_t (Z.of_nat 0))) with (Z.of_nat 0).
  all: change (to_int (to_size_t (Z.of_nat 1))) with (Z.of_nat 1).
  all: change (to_int (to_size_t (Z.of_nat 0 + -1))) with (-1).
  all: change (0 <=? -1) with false.
  all: rewrite ?Hdead by congruence.
  all: by rewrite ?andb_false_r.
Qed.

(** A live cell at [(0,0)] with no other live cell on the board has no live
    neighbor, whatever the size of the board. *)
Lemma CountLiveNeighbors_isolated_corner m :
  valid_board m → cell m 0 0 = Some true →
  (∀ i j alive, cell m i j = Some alive → (i, j) ≠ (0, 0)%nat → alive = false) →
  CountLiveNeighbors m 0 0 = Some 0.
Proof.
  intros [cols Hm] Hcell Hothers.
  rewrite (CountLiveNeighbors_counted cols); [|done|].
  2: { apply cell_Some_inv in Hcell as (row & Hrow & _).
       apply lookup_lt_Some in Hrow. unfold Rows. lia. }
  f_equal. pose proof (counted_corner cols m Hothers) as Hcorner.
  induction Hcorner as [|d ds Hd _ IH]; simpl; [done|]. by rewrite Hd, IH.
Qed.

(** ** Seeding a board that has a row *)

Lemma assign_store m i j v :
  Z.of_nat (Rows m) ≤ 2 ^ 31 → (i < Rows m)%nat →
  assign m i j v = store m i j v.
Proof.
  intros Hrows Hi. unfold assign, subscript, store.
  rewrite to_int_small, to_size_t_small, at_index_nat, Nat2Z.id by lia.
  done.
Qed.

Lemma store_seed cols m pos :
  rectangular cols m → on_board (Rows m) cols pos →
  store m (y pos) (x pos) true = Some (seed m pos).
Proof.
  intros Hm [Hy Hx]. unfold seed.
  destruct (lookup_lt_is_Some_2 m (y pos) Hy) as [row Hrow].
  rewrite (store_Some _ _ _ _ row) by
    (done || by rewrite (rectangular_lookup cols m (y pos) row)).
  f_equal. apply list_eq. intros k.
  destruct (decide (k = y pos)) as [->|Hk].
  - rewrite list_lookup_insert_eq, list_lookup_alter_eq, Hrow by done. done.
  - by rewrite list_lookup_insert_ne, list_lookup_alter_ne.
Qed.

Lemma seed_shape cols m pos :
  rectangular cols m → Rows (seed m pos) = Rows m ∧ rectangular cols (seed m pos).
Proof.
  intros Hm. unfold seed, Rows. split; [apply length_alter|].
  apply Forall_alter; [done|]. intros row Hrow. by rewrite length_insert.
Qed.

Lemma on_board_dec rows cols pos :
  (cols <=? x pos)%nat || (rows <=? y pos)%nat = false ↔ on_board rows cols pos.
Proof.
  unfold on_board. rewrite orb_false_iff, !Nat.leb_gt. tauto.
Qed.

(** All seeds on the board: every write is done, in order. *)
Lemma InitializeBoard_accepts cols init_state : ∀ m,
  rectangular cols m → (0 < Rows m)%nat → Z.of_nat (Rows m) ≤ 2 ^ 31 →
  Forall (on_board (Rows m) cols) init_state →
  InitializeBoard init_state m = Returned (foldl seed m init_state).
Proof.
  induction init_state as [|pos rest IH]; intros m Hm Hpos Hrows Hall; [done|].
  apply Forall_cons in Hall as [Hon Hrest]. cbn [InitializeBoard foldl].
  rewrite (Cols_rectangular cols) by done.
  rewrite (proj2 (on_board_dec _ _ _) Hon).
  rewrite assign_store, (store_seed cols) by (done || apply Hon).
  destruct (seed_shape cols m pos Hm) as [Hrows' Hm'].
  apply IH; rewrite ?Hrows'; done.
Qed.

(** The first seed off the board: the writes before it are done, the
    exception is thrown, and nothing is written for it or after it. *)
Lemma InitializeBoard_rejects cols before bad after m :
  rectangular cols m → (0 < Rows m)%nat → Z.of_nat (Rows m) ≤ 2 ^ 31 →
  Forall (on_board (Rows m) cols) before → ¬ on_board (Rows m) cols bad →
  InitializeBoard (before ++ bad :: after) m
  = Thrown "position does not fit within board boundaries" (foldl seed m before).
Proof.
  revert m. induction before as [|pos rest IH]; intros m Hm Hpos Hrows Hall Hbad.
  - cbn [app InitializeBoard foldl]. rewrite (Cols_rectangular cols) by done.
    destruct ((cols <=? x bad)%nat || (Rows m <=? y bad)%nat) eqn:Htest; [done|].
    by apply on_board_dec in Htest.
  - apply Forall_cons in Hall as [Hon Hrest].
    cbn [app InitializeBoard foldl]. rewrite (Cols_rectangular cols) by done.
    rewrite (proj2 (on_board_dec _ _ _) Hon).
    rewrite assign_store, (store_seed cols) by (done || apply Hon).
    destruct (seed_shape cols m pos Hm) as [Hrows' Hm'].
    apply IH; rewrite ?Hrows'; done.
Qed.

Lemma cell_seed m pos i j :
  cell (seed m pos) i j
  = (λ alive, alive || bool_decide (y pos = i ∧ x pos = j)) <$> cell m i j.
Proof.
  unfold cell, seed. destruct (decide (y pos = i)) as [<-|Hi].
  - rewrite list_lookup_alter_eq.
    destruct (m !! y pos) as [row|]; simpl; [|done].
    destruct (decide (x pos = j)) as [<-|Hj].
    + destruct (row !! x pos) as [alive|] eqn:Halive; simpl.
      * rewrite list_lookup_insert_eq by by eapply lookup_lt_Some.
        rewrite bool_decide_eq_true_2 by done. by rewrite orb_true_r.
      * rewrite list_insert_ge by by apply lookup_ge_None. by rewrite Halive.
    + rewrite list_lookup_insert_ne by done.
      destruct (row !! j); simpl; [|done].
      rewrite bool_decide_eq_false_2 by tauto. by rewrite orb_false_r.
  - rewrite list_lookup_alter_ne by done.
    destruct (m !! i) as [row|]; simpl; [|done].
    destruct (row !! j); simpl; [|done].
    rewrite bool_decide_eq_false_2 by tauto. by rewrite orb_false_r.
Qed.

(** After the writes a cell is alive exactly when it was alive or is one of
    the seeds. *)
Lemma cell_seeds init_state : ∀ m i j,
  cell (foldl seed m init_state) i j
  = (λ alive, alive ||
       bool_decide (Exists (λ pos, y pos = i ∧ x pos = j) init_state))
    <$> cell m i j.
Proof.
  induction init_state as [|pos rest IH]; intros m i j; cbn [foldl].
  - destruct (cell m i j) as [alive|]; [|done]. cbn [fmap option_fmap option_map].
    rewrite bool_decide_eq_false_2 by (by intros ?%Exists_nil).
    by rewrite orb_false_r.
  - rewrite IH, cell_seed. destruct (cell m i j) as [alive|]; [|done].
    cbn [fmap option_fmap option_map].
    f_equal. rewrite <- orb_assoc. f_equal.
    destruct (decide (y pos = i ∧ x pos = j)) as [Hpos|Hpos].
    + rewrite (bool_decide_eq_true_2 (y pos = i ∧ x pos = j)) by done.
      simpl. symmetry. apply bool_decide_eq_true_2. by apply Exists_cons_hd.
    + rewrite (bool_decide_eq_false_2 (y pos = i ∧ x pos = j)) by done.
      simpl. apply bool_decide_ext. rewrite Exists_cons. tauto.
Qed.

(** ** The claims *)

(** C1, at the board of three rows and 2^31 columns holding the horizontal
    triple at row 1, columns 0 to 2: the dead cell [(0, 1)] has exactly
    three live cells among its eight surrounding positions, and it is still
    dead after [Tick]. *)
Theorem Tick_wide_blinker_no_birth :
  valid_board wide_blinker ∧
  cell wide_blinker 0 1 = Some false ∧
  live_neighbors wide_blinker 0 1 = 3%nat ∧
  ∃ m', Tick wide_blinker = Some m' ∧ cell m' 0 1 = Some false.
Proof.
  pose proof (length_dead_cells (2 ^ 31 - 3) ltac:(lia)) as Htail.
  destruct (wide_rows_no_birth _ Htail) as (Hcell & _ & m' & Htick & Hcell' & _).
  split; [eexists; repeat constructor|]. split; [exact Hcell|].
  split; [exact (live_neighbors_wide_rows _)|].
  exists m'. split; [exact Htick|exact Hcell'].
Qed.

(** C2, at a board of one row and 2^31 columns whose live cells are [(0,0)]
    and [(0,1)]: cell [(0,0)] has one live cell among its eight surrounding
    positions, and [CountLiveNeighbors(0, 0)] returns 0, because the column
    limit narrows to a negative [int]. *)
Theorem CountLiveNeighbors_wide_pair :
  valid_board wide_pair ∧ Rows wide_pair = 1%nat ∧
  (∃ cols, Cols wide_pair = Some cols ∧ Z.of_nat cols = 2 ^ 31) ∧
  cell wide_pair 0 0 = Some true ∧
  live_neighbors wide_pair 0 0 = 1%nat ∧
  CountLiveNeighbors wide_pair 0 0 = Some 0.
Proof.
  pose proof (length_dead_cells (2 ^ 31 - 2) ltac:(lia)) as Htail.
  unfold wide_pair. split; [eexists; repeat constructor|].
  split; [done|]. split.
  { eexists. split; [reflexivity|]. cbn [length]. lia. }
  split; [done|]. split; [apply live_neighbors_pair|].
  eapply CountLiveNeighbors_narrowed_cols.
  - repeat constructor.
  - unfold Rows. simpl. lia.
  - by apply wide_row_narrowed.
Qed.

(** C3, at the same board: the grid [Tick] returns differs from the
    reference grid built from the snapshot, in which cell [(0, 1)], dead
    with three live neighbors, is alive. *)
Theorem Tick_wide_blinker_not_reference :
  valid_board wide_blinker ∧
  cell (reference_generation wide_blinker) 0 1 = Some true ∧
  ∃ m', Tick wide_blinker = Some m' ∧ cell m' 0 1 = Some false ∧
        m' ≠ reference_generation wide_blinker.
Proof.
  pose proof (length_dead_cells (2 ^ 31 - 3) ltac:(lia)) as Htail.
  destruct (wide_rows_no_birth _ Htail) as (_ & Href & Hex).
  split; [eexists; repeat constructor|]. split; [exact Href|exact Hex].
Qed.

(** C4: on every valid board, zero rows or zero columns included, [Tick]
    returns a board, no access having left the grid; on the 0x0 board it
    returns the board unchanged. *)
Theorem Tick_total m :
  valid_board m →
  ∃ m', Tick m = Some m' ∧ (m = GameOfLifeBoard 0 0 → m' = m).
Proof.
  intros Hvalid. exists (next_generation m).
  split; [by apply Tick_next_generation|]. by intros ->.
Qed.

Lemma Tick_total_witness :
  valid_board (GameOfLifeBoard 0 0) ∧
  ∃ m', Tick (GameOfLifeBoard 0 0) = Some m' ∧
        (GameOfLifeBoard 0 0 = GameOfLifeBoard 0 0 → m' = GameOfLifeBoard 0 0).
Proof.
  assert (valid_board (GameOfLifeBoard 0 0)) as Hvalid
    by (exists 0%nat; apply rectangular_GameOfLifeBoard).
  split; [exact Hvalid|]. exact (Tick_total (GameOfLifeBoard 0 0) Hvalid).
Defined.

(** C5: a board obtained from [GameOfLifeBoard(rows, cols)] by any number of
    [Tick]s and in-range cell writes has [rows] rows of [cols] entries each,
    and a further [Tick] leaves the results of [Rows()] and [Cols()] as they
    were. *)
Theorem dimensions_invariant rows cols m :
  reachable rows cols m →
  Rows m = rows ∧ rectangular cols m ∧
  ((0 < rows)%nat → Cols m = Some cols) ∧
  ∃ m', Tick m = Some m' ∧ Rows m' = Rows m ∧ Cols m' = Cols m.
Proof.
  intros Hreach. destruct (reachable_shape rows cols m Hreach) as [Hlen Hm].
  split; [done|]. split; [done|]. split.
  { intros Hrows. apply Cols_rectangular; [done|]. unfold Rows. lia. }
  exists (next_generation m). split; [apply Tick_next_generation; by exists cols|].
  split; [apply length_next_generation|].
  apply (Cols_same_shape cols); [done| |apply length_next_generation].
  by apply rectangular_next_generation.
Qed.

Lemma dimensions_invariant_witness :
  reachable 2 3 [[false; false; false]; [false; true; false]] ∧
  Rows [[false; false; false]; [false; true; false]] = 2%nat ∧
  rectangular 3 [[false; false; false]; [false; true; false]] ∧
  ((0 < 2)%nat → Cols [[false; false; false]; [false; true; false]] = Some 3%nat) ∧
  ∃ m', Tick [[false; false; false]; [false; true; false]] = Some m' ∧
        Rows m' = Rows [[false; false; false]; [false; true; false]] ∧
        Cols m' = Cols [[false; false; false]; [false; true; false]].
Proof.
  assert (reachable 2 3 [[false; false; false]; [false; true; false]]) as Hreach.
  { apply (reach_assign 2 3 (GameOfLifeBoard 2 3) _ 1 1 true).
    - apply reach_construct.
    - lia.
    - lia.
    - reflexivity. }
  split; [exact Hreach|]. exact (dimensions_invariant 2 3 _ Hreach).
Defined.

(** C6: [GameOfLifeBoard(rows, cols)] has [rows] rows of [cols] entries each
    and all its cells are dead. *)
Theorem GameOfLifeBoard_all_dead rows cols :
  Rows (GameOfLifeBoard rows cols) = rows ∧
  rectangular cols (GameOfLifeBoard rows cols) ∧
  ((0 < rows)%nat → Cols (GameOfLifeBoard rows cols) = Some cols) ∧
  (∀ i j, (i < rows)%nat → (j < cols)%nat →
          cell (GameOfLifeBoard rows cols) i j = Some false) ∧
  all_dead (GameOfLifeBoard rows cols).
Proof.
  assert (Rows (GameOfLifeBoard rows cols) = rows) as Hrows
    by apply length_replicate.
  split; [done|]. split; [apply rectangular_GameOfLifeBoard|]. split.
  { intros Hpos. apply Cols_rectangular; [apply rectangular_GameOfLifeBoard|lia]. }
  split; [apply cell_GameOfLifeBoard|apply GameOfLifeBoard_cells_dead].
Qed.

Lemma GameOfLifeBoard_all_dead_witness :
  Rows (GameOfLifeBoard 2 3) = 2%nat ∧
  rectangular 3 (GameOfLifeBoard 2 3) ∧
  ((0 < 2)%nat → Cols (GameOfLifeBoard 2 3) = Some 3%nat) ∧
  (∀ i j, (i < 2)%nat → (j < 3)%nat → cell (GameOfLifeBoard 2 3) i j = Some false) ∧
  all_dead (GameOfLifeBoard 2 3).
Proof. exact (GameOfLifeBoard_all_dead 2 3). Defined.

(** C8, at a board of three rows and 2^31 columns holding the horizontal
    blinker at row 1, columns 0 to 2: after [Tick] the three cells of the
    vertical triple at column 1 are dead. *)
Theorem Tick_wide_blinker :
  valid_board wide_blinker ∧ Rows wide_blinker = 3%nat ∧
  (∃ cols, Cols wide_blinker = Some cols ∧ Z.of_nat cols = 2 ^ 31) ∧
  ∃ m', Tick wide_blinker = Some m' ∧
        cell m' 0 1 = Some false ∧ cell m' 1 1 = Some false ∧
        cell m' 2 1 = Some false.
Proof.
  pose proof (length_dead_cells (2 ^ 31 - 3) ltac:(lia)) as Htail.
  split; [eexists; repeat constructor|]. split; [reflexivity|]. split.
  { eexists. split; [reflexivity|]. cbn [length]. lia. }
  exact (Tick_wide_rows _ Htail).
Qed.

(** C9: [Tick] on a valid board whose cells are all dead returns that same
    board, so every cell is dead afterwards. *)
Theorem Tick_all_dead m :
  valid_board m → all_dead m →
  ∃ m', Tick m = Some m' ∧ all_dead m' ∧ m' = m.
Proof.
  intros Hvalid Hdead. exists m.
  rewrite Tick_next_generation, next_generation_dead by done. done.
Qed.

Lemma Tick_all_dead_witness :
  valid_board (GameOfLifeBoard 3 4) ∧ all_dead (GameOfLifeBoard 3 4) ∧
  ∃ m', Tick (GameOfLifeBoard 3 4) = Some m' ∧ all_dead m' ∧
        m' = GameOfLifeBoard 3 4.
Proof.
  assert (valid_board (GameOfLifeBoard 3 4)) as Hvalid
    by (exists 4%nat; apply rectangular_GameOfLifeBoard).
  assert (all_dead (GameOfLifeBoard 3 4)) as Hdead
    by apply GameOfLifeBoard_cells_dead.
  split; [exact Hvalid|]. split; [exact Hdead|].
  exact (Tick_all_dead (GameOfLifeBoard 3 4) Hvalid Hdead).
Defined.

(** C10, at a board without rows and the seed list [(0, 0)]: the range test
    of [InitializeBoard] evaluates [Cols()] first, which reads row 0 of a
    grid that has none; no exception is thrown. *)
Theorem InitializeBoard_no_rows :
  Rows (GameOfLifeBoard 0 5) = 0%nat ∧
  InitializeBoard [mkPosition2D 0 0] (GameOfLifeBoard 0 5) = Undefined.
Proof. split; reflexivity. Qed.

(** * Further properties of the code *)

(** ** The added functions on small inputs *)

Example DrawBoard_blinker_5x5 :
  DrawBoard blinker_5x5
  = Some [call_mvaddch 2 1; call_mvaddch 2 2; call_mvaddch 2 3; call_refresh].
Proof. reflexivity. Qed.

Example DrawBoard_no_rows : DrawBoard (GameOfLifeBoard 0 7) = Some [call_refresh].
Proof. reflexivity. Qed.

Example RunDrawLoop_one_pass :
  RunDrawLoop (mkScreenDimension 2 2) 10 [-1; 113] [[true; true]] []
  = Left_loop [call_clear; call_mvaddch 0 0; call_mvaddch 0 1; call_refresh;
               call_mvprintw 1 0 "press q to quit"; call_refresh;
               call_sleep_for 10]
      [[false; false]].
Proof. reflexivity. Qed.

Example main_board_one_line : main_board (mkScreenDimension 80 1) = [].
Proof. reflexivity. Qed.

Example load_lines_repeats :
  load_lines (λ line, if decide (line = "(1, 2)") then stored_y_x 1 2
                      else if decide (line = "(7") then stored_y 7
                      else stored_none)
    [""; "(1, 2)"; "x"; "(7"] (mkPosition2D 0 0) []
  = [mkPosition2D 0 0; mkPosition2D 2 1; mkPosition2D 2 1; mkPosition2D 2 7].
Proof. reflexivity. Qed.

(** ** More on [CountLiveNeighbors] and [Tick] *)

Lemma to_int_near_inj a b :
  to_int a = to_int b → - 2 ^ 32 < a - b < 2 ^ 32 → a = b.
Proof.
  unfold to_int. intros Heq Hnear.
  pose proof (Z.div_mod (a + 2 ^ 31) (2 ^ 32) ltac:(lia)) as Ha.
  pose proof (Z.div_mod (b + 2 ^ 31) (2 ^ 32) ltac:(lia)) as Hb.
  lia.
Qed.

Lemma kDirections_near :
  Forall (λ d : Z * Z, -1 ≤ d.1 ≤ 1 ∧ -1 ≤ d.2 ≤ 1) kDirections.
Proof. unfold kDirections. repeat constructor; simpl; lia. Qed.

Lemma NoDup_kDirections : NoDup kDirections.
Proof. apply (bool_decide_unpack (NoDup kDirections)). by vm_compute. Qed.

Lemma counted_live_at_narrowed m cols row col d :
  counted m cols row col d = true →
  live_at m (to_int (to_size_t (Z.of_nat row + d.1)))
            (to_int (to_size_t (Z.of_nat col + d.2))) = true.
Proof. unfold counted. intros Hc. by apply andb_prop in Hc as [_ Hc]. Qed.

Lemma counted_narrowed_rows m cols row col d :
  to_int (Z.of_nat (Rows m)) ≤ 0 → counted m cols row col d = false.
Proof.
  intros Hrows. unfold counted.
  set (nr := to_int (to_size_t (Z.of_nat row + d.1))).
  destruct (Z.leb_spec 0 nr); [|done].
  replace (nr <? _) with false by (symmetry; apply Z.ltb_ge; lia).
  done.
Qed.

Lemma total_zero_in {A} (f : A → Z) xs :
  (∀ a, a ∈ xs → f a = 0) → total f xs = 0.
Proof.
  induction xs as [|a xs IH]; intros Hf; simpl; [done|].
  rewrite Hf, IH; [done| |by left]. intros b Hb. apply Hf. by right.
Qed.

Lemma total_at_most_one {A} (f : A → bool) xs :
  NoDup xs →
  (∀ a b, a ∈ xs → b ∈ xs → f a = true → f b = true → a = b) →
  0 ≤ total (λ a, Z.b2z (f a)) xs ≤ 1.
Proof.
  induction 1 as [|a xs Ha Hxs IH]; intros Hone; simpl; [lia|].
  destruct (f a) eqn:Hfa; cbn [Z.b2z].
  - rewrite total_zero_in; [lia|]. intros b Hb.
    destruct (f b) eqn:Hfb; [|done].
    destruct Ha. by rewrite (Hone a b) by (done || by left || by right).
  - assert (0 ≤ total (λ a0, Z.b2z (f a0)) xs ≤ 1); [|lia].
    apply IH. intros b b' Hb Hb'. apply Hone; by right.
Qed.

(** Two directions that both see the one live cell are the same
    direction: narrowing keeps offsets of at most one apart. *)
Lemma counted_same_direction cols m row col r c d d' :
  (∀ i j, cell m i j = Some true → i = r ∧ j = c) →
  d ∈ kDirections → d' ∈ kDirections →
  counted m cols row col d = true → counted m cols row col d' = true → d = d'.
Proof.
  intros Hone Hd Hd' Hc Hc'.
  pose proof (proj1 (Forall_forall _ _) kDirections_near) as Hnear.
  pose proof (Hnear d Hd) as [Hd1 Hd2]. pose proof (Hnear d' Hd') as [Hd1' Hd2'].
  apply counted_live_at_narrowed, live_at_inside in Hc as (Hr & Hcl & Hcell).
  apply counted_live_at_narrowed, live_at_inside in Hc' as (Hr' & Hcl' & Hcell').
  apply Hone in Hcell as [Hi Hj]. apply Hone in Hcell' as [Hi' Hj'].
  rewrite !to_int_to_size_t in *.
  destruct d as [d1 d2], d' as [e1 e2]; simpl in *.
  assert (Z.of_nat row + d1 = Z.of_nat row + e1).
  { apply to_int_near_inj; lia. }
  assert (Z.of_nat col + d2 = Z.of_nat col + e2).
  { apply to_int_near_inj; lia. }
  f_equal; lia.
Qed.

Lemma neighbors_seen_single m r c i j :
  valid_board m →
  (∀ i j, cell m i j = Some true → i = r ∧ j = c) →
  0 ≤ neighbors_seen m i j ≤ 1.
Proof.
  intros [cols Hm] Hone. destruct m as [|row0 m0]; [by compute|].
  rewrite (neighbors_seen_counted cols) by (done || unfold Rows; simpl; lia).
  apply (total_at_most_one (counted (row0 :: m0) cols i j)).
  - apply NoDup_kDirections.
  - intros d d' Hd Hd'. by apply (counted_same_direction cols _ i j r c).
Qed.

(** X1: a board with at most one live cell is all dead after [Tick], whatever its
    size. *)
Theorem Tick_single_cell_dies m r c :
  valid_board m →
  (∀ i j, cell m i j = Some true → i = r ∧ j = c) →
  ∃ m', Tick m = Some m' ∧ all_dead m' ∧ Rows m' = Rows m ∧ Cols m' = Cols m.
Proof.
  intros Hvalid Hone. exists (next_generation m).
  split; [by apply Tick_next_generation|]. split.
  - intros i j alive'. rewrite cell_next_generation.
    destruct (cell m i j) as [alive|]; simpl; [|done]. intros [= <-].
    pose proof (neighbors_seen_single m r c i j Hvalid Hone) as Hn.
    unfold transition. destruct alive; apply bool_decide_eq_false_2; lia.
  - destruct Hvalid as [cols Hm]. split; [apply length_next_generation|].
    apply (Cols_same_shape cols); [done| |apply length_next_generation].
    by apply rectangular_next_generation.
Qed.

Lemma Tick_single_cell_dies_witness :
  valid_board [[false; false]; [false; true]] ∧
  (∀ i j, cell [[false; false]; [false; true]] i j = Some true →
          i = 1%nat ∧ j = 1%nat) ∧
  ∃ m', Tick [[false; false]; [false; true]] = Some m' ∧ all_dead m' ∧
        Rows m' = Rows [[false; false]; [false; true]] ∧
        Cols m' = Cols [[false; false]; [false; true]].
Proof.
  assert (valid_board [[false; false]; [false; true]]) as Hvalid
    by (exists 2%nat; repeat constructor).
  assert (∀ i j, cell [[false; false]; [false; true]] i j = Some true →
                 i = 1%nat ∧ j = 1%nat) as Hone.
  { intros [|[|i]] [|[|j]]; simpl; try discriminate; try done.
    all: by destruct i || by destruct j. }
  split; [exact Hvalid|]. split; [exact Hone|].
  exact (Tick_single_cell_dies _ 1 1 Hvalid Hone).
Defined.

(** X2: on a valid board that has a row, [CountLiveNeighbors(row, col)] reads
    no cell outside the grid for any [row] and [col], also ones off the
    board, and returns a count between 0 and 8; on a board without rows it
    reads row 0 of an empty grid. *)
Theorem CountLiveNeighbors_defined m row col :
  valid_board m →
  match CountLiveNeighbors m row col with
  | Some n => (0 < Rows m)%nat ∧ 0 ≤ n ≤ 8
  | None => Rows m = 0%nat
  end.
Proof.
  intros [cols Hm]. destruct (CountLiveNeighbors m row col) as [n|] eqn:Hn.
  - split; [|by eapply CountLiveNeighbors_range].
    destruct m; [done|]. unfold Rows. simpl. lia.
  - destruct (decide (0 < Rows m)%nat) as [Hr|Hr]; [|lia].
    by rewrite (CountLiveNeighbors_counted cols) in Hn.
Qed.

Lemma CountLiveNeighbors_defined_witness :
  valid_board blinker_5x5 ∧
  match CountLiveNeighbors blinker_5x5 7 9 with
  | Some n => (0 < Rows blinker_5x5)%nat ∧ 0 ≤ n ≤ 8
  | None => Rows blinker_5x5 = 0%nat
  end.
Proof.
  assert (valid_board blinker_5x5) as Hvalid by (exists 5%nat; repeat constructor).
  split; [exact Hvalid|]. exact (CountLiveNeighbors_defined blinker_5x5 7 9 Hvalid).
Defined.

(** X3: on a valid board with fewer than 2^31 rows and fewer than 2^31
    columns, [CountLiveNeighbors(row, col)] of an in-range cell is the
    number of live cells among the eight surrounding positions, those off
    the grid counting as dead. *)
Theorem CountLiveNeighbors_int_range cols m row col :
  rectangular cols m →
  Z.of_nat (Rows m) < 2 ^ 31 → Z.of_nat cols < 2 ^ 31 →
  (row < Rows m)%nat → (col < cols)%nat →
  CountLiveNeighbors m row col = Some (Z.of_nat (live_neighbors m row col)).
Proof.
  intros Hm Hrows Hcols Hrow Hcol.
  rewrite (CountLiveNeighbors_counted cols) by (done || lia).
  rewrite live_neighbors_total, neighbor_offsets_list.
  unfold kDirections, total, foldr.
  rewrite !(counted_live_at cols) by (done || simpl; lia).
  apply (f_equal Some). simpl. lia.
Qed.

Lemma CountLiveNeighbors_int_range_witness :
  rectangular 5 blinker_5x5 ∧
  Z.of_nat (Rows blinker_5x5) < 2 ^ 31 ∧ Z.of_nat 5 < 2 ^ 31 ∧
  (1 < Rows blinker_5x5)%nat ∧ (2 < 5)%nat ∧
  CountLiveNeighbors blinker_5x5 1 2
  = Some (Z.of_nat (live_neighbors blinker_5x5 1 2)).
Proof.
  assert (rectangular 5 blinker_5x5) as Hm by repeat constructor.
  assert (Z.of_nat (Rows blinker_5x5) < 2 ^ 31) as Hrows by (simpl; lia).
  assert (Z.of_nat 5 < 2 ^ 31) as Hcols by lia.
  assert (1 < Rows blinker_5x5)%nat as Hrow by (simpl; lia).
  assert (2 < 5)%nat as Hcol by lia.
  repeat (split; [assumption|]).
  exact (CountLiveNeighbors_int_range 5 blinker_5x5 1 2 Hm Hrows Hcols Hrow Hcol).
Defined.

Lemma neighbors_seen_narrowed cols m i j :
  rectangular cols m →
  to_int (Z.of_nat (Rows m)) ≤ 0 ∨ to_int (Z.of_nat cols) ≤ 0 →
  neighbors_seen m i j = 0.
Proof.
  intros Hm Hnarrow. destruct m as [|row0 m0]; [done|].
  rewrite (neighbors_seen_counted cols) by (done || unfold Rows; simpl; lia).
  apply total_zero. intros d.
  destruct Hnarrow;
    [by rewrite counted_narrowed_rows|by rewrite counted_narrowed_cols].
Qed.

(** X4: when the number of rows or of columns narrows to an [int] that is
    not positive (2^31 columns, say), [CountLiveNeighbors] returns 0 for
    every cell (on a board that has a row) and [Tick] leaves an all-dead
    board of the same dimensions, whatever was alive. *)
Theorem Tick_narrowed_dimension cols m :
  rectangular cols m →
  to_int (Z.of_nat (Rows m)) ≤ 0 ∨ to_int (Z.of_nat cols) ≤ 0 →
  ((0 < Rows m)%nat → ∀ row col, CountLiveNeighbors m row col = Some 0) ∧
  Tick m = Some (GameOfLifeBoard (Rows m) cols).
Proof.
  intros Hm Hnarrow. split.
  { intros Hrows row col. rewrite (CountLiveNeighbors_counted cols) by done.
    f_equal. apply total_zero. intros d.
    destruct Hnarrow;
      [by rewrite counted_narrowed_rows|by rewrite counted_narrowed_cols]. }
  rewrite Tick_next_generation by by exists cols.
  f_equal. apply list_eq. intros i.
  rewrite next_generation_rows, list_lookup_imap. unfold GameOfLifeBoard.
  destruct (m !! i) as [row|] eqn:Hrow; simpl.
  - rewrite lookup_replicate_2 by by eapply lookup_lt_Some.
    f_equal. apply list_eq. intros j. unfold next_row.
    rewrite list_lookup_imap.
    pose proof (rectangular_lookup cols m i row Hm Hrow) as Hlen.
    destruct (row !! j) as [alive|] eqn:Halive; simpl.
    + rewrite lookup_replicate_2 by (apply lookup_lt_Some in Halive; lia).
      f_equal. rewrite (neighbors_seen_narrowed cols) by done.
      by destruct alive.
    + symmetry. apply lookup_replicate_None. apply lookup_ge_None in Halive. lia.
  - symmetry. apply lookup_replicate_None. by apply lookup_ge_None in Hrow.
Qed.

Lemma Tick_narrowed_dimension_witness :
  rectangular (3 + length (dead_cells (2 ^ 31 - 3))) wide_blinker ∧
  (to_int (Z.of_nat (Rows wide_blinker)) ≤ 0 ∨
   to_int (Z.of_nat (3 + length (dead_cells (2 ^ 31 - 3)))) ≤ 0) ∧
  ((0 < Rows wide_blinker)%nat →
   ∀ row col, CountLiveNeighbors wide_blinker row col = Some 0) ∧
  Tick wide_blinker
  = Some (GameOfLifeBoard (Rows wide_blinker)
            (3 + length (dead_cells (2 ^ 31 - 3)))).
Proof.
  assert (rectangular (3 + length (dead_cells (2 ^ 31 - 3))) wide_blinker) as Hm
    by repeat constructor.
  assert (to_int (Z.of_nat (Rows wide_blinker)) ≤ 0 ∨
          to_int (Z.of_nat (3 + length (dead_cells (2 ^ 31 - 3)))) ≤ 0) as Hnarrow.
  { right. rewrite Nat2Z.inj_add, length_dead_cells by lia.
    change (to_int (2 ^ 31) ≤ 0). rewrite to_int_2_31. lia. }
  split; [exact Hm|]. split; [exact Hnarrow|].
  exact (Tick_narrowed_dimension _ wide_blinker Hm Hnarrow).
Defined.

(** X5: the 2x2 block is a still life at every position of a valid board
    with fewer than 2^31 rows and columns, the edges and corners of the
    board included. *)
Theorem Tick_block_still rows cols r c :
  Z.of_nat rows < 2 ^ 31 → Z.of_nat cols < 2 ^ 31 →
  0 ≤ r → r + 1 < Z.of_nat rows → 0 ≤ c → c + 1 < Z.of_nat cols →
  Tick (board_of rows cols (block r c)) = Some (board_of rows cols (block r c)).
Proof.
  intros Hrows Hcols Hr1 Hr2 Hc1 Hc2.
  apply Tick_board_of; [done|done|]. intros i j Hi Hj.
  rewrite live_neighbors_board_of, neighbor_offsets_list.
  unfold total, foldr, transition, block.
  cbn [fst snd].
  assert (0 ≤ Z.of_nat i < Z.of_nat rows) as Hzi by lia.
  assert (0 ≤ Z.of_nat j < Z.of_nat cols) as Hzj by lia.
  clear Hi Hj Hrows Hcols.
  generalize dependent (Z.of_nat i). generalize dependent (Z.of_nat j).
  generalize dependent (Z.of_nat rows). generalize dependent (Z.of_nat cols).
  clear i j rows cols. intros zcols Hc2 zrows Hr2 zj Hzj zi Hzi.
  by_position zi zj r c.
Qed.

Lemma Tick_block_still_witness :
  Z.of_nat 4 < 2 ^ 31 ∧ Z.of_nat 5 < 2 ^ 31 ∧
  0 ≤ 0 ∧ 0 + 1 < Z.of_nat 4 ∧ 0 ≤ 3 ∧ 3 + 1 < Z.of_nat 5 ∧
  Tick (board_of 4 5 (block 0 3)) = Some (board_of 4 5 (block 0 3)).
Proof.
  repeat (split; [lia|]).
  apply (Tick_block_still 4 5 0 3); lia.
Defined.

(** X6: on a valid board with fewer than 2^31 rows and columns, the
    horizontal triple centred at [(r, c)], with a free row and column around
    it, becomes the vertical triple after one [Tick] and is back after two. *)
Theorem Tick_blinker_int_range rows cols r c :
  Z.of_nat rows < 2 ^ 31 → Z.of_nat cols < 2 ^ 31 →
  1 ≤ r → r + 1 < Z.of_nat rows → 1 ≤ c → c + 1 < Z.of_nat cols →
  Tick (board_of rows cols (horizontal_triple r c))
    = Some (board_of rows cols (vertical_triple r c)) ∧
  Tick (board_of rows cols (vertical_triple r c))
    = Some (board_of rows cols (horizontal_triple r c)).
Proof.
  intros Hrows Hcols Hr1 Hr2 Hc1 Hc2.
  split; [by apply Tick_horizontal_triple|by apply Tick_vertical_triple].
Qed.

Lemma Tick_blinker_int_range_witness :
  Z.of_nat 3 < 2 ^ 31 ∧ Z.of_nat 4 < 2 ^ 31 ∧
  1 ≤ 1 ∧ 1 + 1 < Z.of_nat 3 ∧ 1 ≤ 2 ∧ 2 + 1 < Z.of_nat 4 ∧
  Tick (board_of 3 4 (horizontal_triple 1 2))
    = Some (board_of 3 4 (vertical_triple 1 2)) ∧
  Tick (board_of 3 4 (vertical_triple 1 2))
    = Some (board_of 3 4 (horizontal_triple 1 2)).
Proof.
  repeat (split; [lia|]).
  apply (Tick_blinker_int_range 3 4 1 2); lia.
Defined.

(** X22: on a valid board with fewer than 2^31 rows and columns, the state
    of an in-range cell after [Tick] follows from its state before and from
    the number [n] of live cells among its eight surrounding positions
    before: alive with [n < 2] dies, alive with [n > 3] dies, alive with [n]
    2 or 3 stays alive, dead with [n = 3] becomes alive, dead with another
    [n] stays dead. *)
Theorem Tick_rules_int_range cols m r c alive :
  rectangular cols m →
  Z.of_nat (Rows m) < 2 ^ 31 → Z.of_nat cols < 2 ^ 31 →
  cell m r c = Some alive →
  ∃ m' alive',
    Tick m = Some m' ∧ cell m' r c = Some alive' ∧
    (alive = true → (live_neighbors m r c < 2)%nat → alive' = false) ∧
    (alive = true → (3 < live_neighbors m r c)%nat → alive' = false) ∧
    (alive = true →
       live_neighbors m r c = 2%nat ∨ live_neighbors m r c = 3%nat →
       alive' = true) ∧
    (alive = false → live_neighbors m r c = 3%nat → alive' = true) ∧
    (alive = false → live_neighbors m r c ≠ 3%nat → alive' = false).
Proof.
  intros Hm Hrows Hcols Hcell.
  exists (next_generation m),
         (transition alive (Z.of_nat (live_neighbors m r c))).
  split; [apply Tick_next_generation; by exists cols|]. split.
  { rewrite (next_generation_reference cols) by done.
    by rewrite cell_reference_generation, Hcell. }
  unfold transition.
  repeat split; intros -> Hcase;
    (apply bool_decide_eq_true_2 || apply bool_decide_eq_false_2); lia.
Qed.

Lemma Tick_rules_int_range_witness :
  rectangular 5 blinker_5x5 ∧
  Z.of_nat (Rows blinker_5x5) < 2 ^ 31 ∧ Z.of_nat 5 < 2 ^ 31 ∧
  cell blinker_5x5 1 2 = Some false ∧
  ∃ m' alive',
    Tick blinker_5x5 = Some m' ∧ cell m' 1 2 = Some alive' ∧
    (false = true → (live_neighbors blinker_5x5 1 2 < 2)%nat → alive' = false) ∧
    (false = true → (3 < live_neighbors blinker_5x5 1 2)%nat → alive' = false) ∧
    (false = true →
       live_neighbors blinker_5x5 1 2 = 2%nat ∨
       live_neighbors blinker_5x5 1 2 = 3%nat →
       alive' = true) ∧
    (false = false → live_neighbors blinker_5x5 1 2 = 3%nat → alive' = true) ∧
    (false = false → live_neighbors blinker_5x5 1 2 ≠ 3%nat → alive' = false).
Proof.
  assert (rectangular 5 blinker_5x5) as Hm by repeat constructor.
  assert (Z.of_nat (Rows blinker_5x5) < 2 ^ 31) as Hrows by (simpl; lia).
  assert (Z.of_nat 5 < 2 ^ 31) as Hcols by lia.
  assert (cell blinker_5x5 1 2 = Some false) as Hcell by reflexivity.
  repeat (split; [assumption|]).
  exact (Tick_rules_int_range 5 blinker_5x5 1 2 false Hm Hrows Hcols Hcell).
Defined.

(** X23: on a valid board with fewer than 2^31 rows and columns, [Tick],
    which copies the grid and overwrites the cells the rules change while
    counting on the untouched grid, returns exactly the reference grid:
    the fresh grid in which every cell is the rule applied to the snapshot
    cell and to the number of live cells among its eight surrounding
    positions in the snapshot. *)
Theorem Tick_reference_int_range cols m :
  rectangular cols m →
  Z.of_nat (Rows m) < 2 ^ 31 → Z.of_nat cols < 2 ^ 31 →
  Tick m = Some (reference_generation m).
Proof.
  intros Hm Hrows Hcols. rewrite <- (next_generation_reference cols) by done.
  unfold Tick.
  (* the copy [tmp = state_] is the buffer of the outer loop at row 0 *)
  apply (tick_rows_from cols m (Rows m) 0 m Hm).
  - unfold Rows. lia.
  - symmetry. apply buffer_at_start.
Qed.

Lemma Tick_reference_int_range_witness :
  rectangular 5 blinker_5x5 ∧
  Z.of_nat (Rows blinker_5x5) < 2 ^ 31 ∧ Z.of_nat 5 < 2 ^ 31 ∧
  Tick blinker_5x5 = Some (reference_generation blinker_5x5).
Proof.
  assert (rectangular 5 blinker_5x5) as Hm by repeat constructor.
  assert (Z.of_nat (Rows blinker_5x5) < 2 ^ 31) as Hrows by (simpl; lia).
  assert (Z.of_nat 5 < 2 ^ 31) as Hcols by lia.
  repeat (split; [assumption|]).
  exact (Tick_reference_int_range 5 blinker_5x5 Hm Hrows Hcols).
Defined.

(** ** Cell writes through [operator[]] *)

Lemma cell_insert_row m i j v row i' j' :
  m !! i = Some row →
  cell (<[i := <[j := v]> row]> m) i' j'
  = if decide (i' = i ∧ j' = j ∧ (j < length row)%nat) then Some v
    else cell m i' j'.
Proof.
  intros Hrow. unfold cell. pose proof (lookup_lt_Some _ _ _ Hrow) as Hi.
  destruct (decide (i' = i)) as [->|Hne].
  - rewrite list_lookup_insert_eq, Hrow by done. simpl.
    rewrite list_lookup_insert.
    destruct (decide (j = j' ∧ (j < length row)%nat)) as [[-> Hj]|Hn].
    + by rewrite decide_True.
    + rewrite decide_False; [done|]. intros (_ & -> & Hj). tauto.
  - rewrite list_lookup_insert_ne by done.
    rewrite decide_False by tauto. done.
Qed.

(** X7: on a valid board of at most 2^31 rows a write [board[i][j] = v] with
    [i] and [j] in range is defined, is read back at [(i, j)], leaves every
    other cell as it was and keeps the dimensions. *)
Theorem assign_read_back cols m i j v :
  rectangular cols m → Z.of_nat (Rows m) ≤ 2 ^ 31 →
  (i < Rows m)%nat → (j < cols)%nat →
  ∃ m', assign m i j v = Some m' ∧
        cell m' i j = Some v ∧
        (∀ i' j', (i', j') ≠ (i, j) → cell m' i' j' = cell m i' j') ∧
        Rows m' = Rows m ∧ rectangular cols m'.
Proof.
  intros Hm Hrows Hi Hj. rewrite assign_store by done.
  destruct (lookup_lt_is_Some_2 m i Hi) as [row Hrow].
  pose proof (rectangular_lookup cols m i row Hm Hrow) as Hlen.
  rewrite (store_Some m i j v row) by (done || lia).
  eexists. split; [done|]. split; [|split; [|split]].
  - rewrite (cell_insert_row m i j v row) by done.
    rewrite decide_True; [done|]. split; [done|]. split; [done|lia].
  - intros i' j' Hne. rewrite (cell_insert_row m i j v row) by done.
    rewrite decide_False; [done|]. intros (-> & -> & _). done.
  - unfold Rows. apply length_insert.
  - apply rectangular_insert; [done|]. by rewrite length_insert.
Qed.

Lemma assign_read_back_witness :
  rectangular 3 (GameOfLifeBoard 2 3) ∧
  Z.of_nat (Rows (GameOfLifeBoard 2 3)) ≤ 2 ^ 31 ∧
  (1 < Rows (GameOfLifeBoard 2 3))%nat ∧ (2 < 3)%nat ∧
  ∃ m', assign (GameOfLifeBoard 2 3) 1 2 true = Some m' ∧
        cell m' 1 2 = Some true ∧
        (∀ i' j', (i', j') ≠ (1, 2)%nat →
                  cell m' i' j' = cell (GameOfLifeBoard 2 3) i' j') ∧
        Rows m' = Rows (GameOfLifeBoard 2 3) ∧ rectangular 3 m'.
Proof.
  assert (rectangular 3 (GameOfLifeBoard 2 3)) as Hm
    by apply rectangular_GameOfLifeBoard.
  assert (Z.of_nat (Rows (GameOfLifeBoard 2 3)) ≤ 2 ^ 31) as Hrows by (simpl; lia).
  assert (1 < Rows (GameOfLifeBoard 2 3))%nat as Hi by (simpl; lia).
  assert (2 < 3)%nat as Hj by lia.
  repeat (split; [assumption|]).
  exact (assign_read_back 3 (GameOfLifeBoard 2 3) 1 2 true Hm Hrows Hi Hj).
Defined.

(** ** More on [InitializeBoard] *)

Lemma seeds_shape cols init_state : ∀ m,
  rectangular cols m →
  Rows (foldl seed m init_state) = Rows m ∧
  rectangular cols (foldl seed m init_state).
Proof.
  induction init_state as [|pos rest IH]; intros m Hm; [done|]. cbn [foldl].
  destruct (seed_shape cols m pos Hm) as [Hrows Hm'].
  destruct (IH _ Hm') as [Hrows' Hm'']. split; [lia|done].
Qed.

(** X9: when every seed lies on a valid board with 1 to 2^31 rows,
    [InitializeBoard] returns; afterwards a cell is alive exactly when it
    was alive before or is one of the seeds, and the dimensions are the
    same. *)
Theorem InitializeBoard_sets_seeds cols init_state m :
  rectangular cols m → (0 < Rows m)%nat → Z.of_nat (Rows m) ≤ 2 ^ 31 →
  Forall (on_board (Rows m) cols) init_state →
  ∃ m', InitializeBoard init_state m = Returned m' ∧
        Rows m' = Rows m ∧ rectangular cols m' ∧
        ∀ i j, cell m' i j
               = (λ alive, alive ||
                    bool_decide (Exists (λ pos, y pos = i ∧ x pos = j) init_state))
                 <$> cell m i j.
Proof.
  intros Hm Hpos Hrows Hall. exists (foldl seed m init_state).
  split; [by apply (InitializeBoard_accepts cols)|].
  destruct (seeds_shape cols init_state m Hm) as [Hrows' Hm'].
  split; [done|]. split; [done|]. intros i j. apply cell_seeds.
Qed.

Lemma InitializeBoard_sets_seeds_witness :
  rectangular 3 (GameOfLifeBoard 3 3) ∧ (0 < Rows (GameOfLifeBoard 3 3))%nat ∧
  Z.of_nat (Rows (GameOfLifeBoard 3 3)) ≤ 2 ^ 31 ∧
  Forall (on_board (Rows (GameOfLifeBoard 3 3)) 3)
    [mkPosition2D 1 2; mkPosition2D 0 0] ∧
  ∃ m', InitializeBoard [mkPosition2D 1 2; mkPosition2D 0 0] (GameOfLifeBoard 3 3)
        = Returned m' ∧
        Rows m' = Rows (GameOfLifeBoard 3 3) ∧ rectangular 3 m' ∧
        ∀ i j, cell m' i j
               = (λ alive, alive ||
                    bool_decide (Exists (λ pos, y pos = i ∧ x pos = j)
                                   [mkPosition2D 1 2; mkPosition2D 0 0]))
                 <$> cell (GameOfLifeBoard 3 3) i j.
Proof.
  assert (rectangular 3 (GameOfLifeBoard 3 3)) as Hm
    by apply rectangular_GameOfLifeBoard.
  assert (0 < Rows (GameOfLifeBoard 3 3))%nat as Hpos by (simpl; lia).
  assert (Z.of_nat (Rows (GameOfLifeBoard 3 3)) ≤ 2 ^ 31) as Hrows by (simpl; lia).
  assert (Forall (on_board (Rows (GameOfLifeBoard 3 3)) 3)
            [mkPosition2D 1 2; mkPosition2D 0 0]) as Hall.
  { repeat constructor; simpl; lia. }
  repeat (split; [assumption|]).
  exact (InitializeBoard_sets_seeds 3 _ _ Hm Hpos Hrows Hall).
Defined.

(** X10: at the first seed off a valid board with 1 to 2^31 rows,
    [InitializeBoard] throws; the seeds before it stay written on the
    caller's board, the seed itself and the ones after it are not written. *)
Theorem InitializeBoard_throws_midway cols before bad after m :
  rectangular cols m → (0 < Rows m)%nat → Z.of_nat (Rows m) ≤ 2 ^ 31 →
  Forall (on_board (Rows m) cols) before → ¬ on_board (Rows m) cols bad →
  ∃ m', InitializeBoard (before ++ bad :: after) m
        = Thrown "position does not fit within board boundaries" m' ∧
        Rows m' = Rows m ∧ rectangular cols m' ∧
        ∀ i j, cell m' i j
               = (λ alive, alive ||
                    bool_decide (Exists (λ pos, y pos = i ∧ x pos = j) before))
                 <$> cell m i j.
Proof.
  intros Hm Hpos Hrows Hall Hbad. exists (foldl seed m before).
  split; [by apply (InitializeBoard_rejects cols)|].
  destruct (seeds_shape cols before m Hm) as [Hrows' Hm'].
  split; [done|]. split; [done|]. intros i j. apply cell_seeds.
Qed.

Lemma InitializeBoard_throws_midway_witness :
  rectangular 3 (GameOfLifeBoard 3 3) ∧ (0 < Rows (GameOfLifeBoard 3 3))%nat ∧
  Z.of_nat (Rows (GameOfLifeBoard 3 3)) ≤ 2 ^ 31 ∧
  Forall (on_board (Rows (GameOfLifeBoard 3 3)) 3) [mkPosition2D 1 2] ∧
  ¬ on_board (Rows (GameOfLifeBoard 3 3)) 3 (mkPosition2D 3 0) ∧
  ∃ m', InitializeBoard ([mkPosition2D 1 2] ++ mkPosition2D 3 0 :: [mkPosition2D 0 0])
          (GameOfLifeBoard 3 3)
        = Thrown "position does not fit within board boundaries" m' ∧
        Rows m' = Rows (GameOfLifeBoard 3 3) ∧ rectangular 3 m' ∧
        ∀ i j, cell m' i j
               = (λ alive, alive ||
                    bool_decide (Exists (λ pos, y pos = i ∧ x pos = j)
                                   [mkPosition2D 1 2]))
                 <$> cell (GameOfLifeBoard 3 3) i j.
Proof.
  assert (rectangular 3 (GameOfLifeBoard 3 3)) as Hm
    by apply rectangular_GameOfLifeBoard.
  assert (0 < Rows (GameOfLifeBoard 3 3))%nat as Hpos by (simpl; lia).
  assert (Z.of_nat (Rows (GameOfLifeBoard 3 3)) ≤ 2 ^ 31) as Hrows by (simpl; lia).
  assert (Forall (on_board (Rows (GameOfLifeBoard 3 3)) 3) [mkPosition2D 1 2])
    as Hall by (repeat constructor; simpl; lia).
  assert (¬ on_board (Rows (GameOfLifeBoard 3 3)) 3 (mkPosition2D 3 0)) as Hbad
    by (intros [_ Hx]; simpl in Hx; lia).
  repeat (split; [assumption|]).
  exact (InitializeBoard_throws_midway 3 _ _ _ _ Hm Hpos Hrows Hall Hbad).
Defined.

Lemma seed_comm m p q : seed (seed m p) q = seed (seed m q) p.
Proof.
  unfold seed. destruct (decide (y p = y q)) as [Hy|Hy].
  - rewrite Hy, !list_alter_alter_eq. apply list_alter_ext; [|done].
    intros row _. simpl.
    destruct (decide (x p = x q)) as [->|Hx]; [done|].
    by apply list_insert_insert_ne.
  - by apply list_alter_alter_ne.
Qed.

Lemma seeds_permutation init_state init_state' :
  init_state ≡ₚ init_state' →
  ∀ m, foldl seed m init_state = foldl seed m init_state'.
Proof.
  induction 1 as [|p l l' _ IH|p q l|l l' l'' _ IH _ IH']; intros m; cbn [foldl].
  - done.
  - apply IH.
  - by rewrite seed_comm.
  - by rewrite IH, IH'.
Qed.

(** X11: the order of the seeds does not matter: two seed lists that are
    permutations of each other, all on a valid board with 1 to 2^31 rows,
    leave the same board. *)
Theorem InitializeBoard_any_order cols init_state init_state' m :
  rectangular cols m → (0 < Rows m)%nat → Z.of_nat (Rows m) ≤ 2 ^ 31 →
  Forall (on_board (Rows m) cols) init_state →
  init_state ≡ₚ init_state' →
  InitializeBoard init_state m = InitializeBoard init_state' m ∧
  ∃ m', InitializeBoard init_state m = Returned m'.
Proof.
  intros Hm Hpos Hrows Hall Hperm.
  rewrite !(InitializeBoard_accepts cols); try done.
  - split; [|by eexists]. f_equal. by apply seeds_permutation.
  - by rewrite <- Hperm.
Qed.

Lemma InitializeBoard_any_order_witness :
  rectangular 3 (GameOfLifeBoard 3 3) ∧ (0 < Rows (GameOfLifeBoard 3 3))%nat ∧
  Z.of_nat (Rows (GameOfLifeBoard 3 3)) ≤ 2 ^ 31 ∧
  Forall (on_board (Rows (GameOfLifeBoard 3 3)) 3)
    [mkPosition2D 1 2; mkPosition2D 0 0] ∧
  [mkPosition2D 1 2; mkPosition2D 0 0] ≡ₚ [mkPosition2D 0 0; mkPosition2D 1 2] ∧
  InitializeBoard [mkPosition2D 1 2; mkPosition2D 0 0] (GameOfLifeBoard 3 3)
  = InitializeBoard [mkPosition2D 0 0; mkPosition2D 1 2] (GameOfLifeBoard 3 3) ∧
  ∃ m', InitializeBoard [mkPosition2D 1 2; mkPosition2D 0 0] (GameOfLifeBoard 3 3)
        = Returned m'.
Proof.
  assert (rectangular 3 (GameOfLifeBoard 3 3)) as Hm
    by apply rectangular_GameOfLifeBoard.
  assert (0 < Rows (GameOfLifeBoard 3 3))%nat as Hpos by (simpl; lia).
  assert (Z.of_nat (Rows (GameOfLifeBoard 3 3)) ≤ 2 ^ 31) as Hrows by (simpl; lia).
  assert (Forall (on_board (Rows (GameOfLifeBoard 3 3)) 3)
            [mkPosition2D 1 2; mkPosition2D 0 0]) as Hall
    by (repeat constructor; simpl; lia).
  assert ([mkPosition2D 1 2; mkPosition2D 0 0]
          ≡ₚ [mkPosition2D 0 0; mkPosition2D 1 2]) as Hperm by apply perm_swap.
  repeat (split; [assumption|]).
  exact (InitializeBoard_any_order 3 _ _ _ Hm Hpos Hrows Hall Hperm).
Defined.

(** ** [DrawBoard] *)

Lemma for_each_imap {A B} (body : nat → list B → option (list B))
    (f : nat → A → list B) (l : list A) : ∀ k out,
  (∀ j a o, l !! j = Some a → body (k + j)%nat o = Some (o ++ f (k + j)%nat a)) →
  for_each (seq k (length l)) body out
  = Some (out ++ mjoin (imap (λ j, f (k + j)%nat) l)).
Proof.
  induction l as [|a l IH]; intros k out Hbody; simpl.
  - by rewrite app_nil_r.
  - pose proof (Hbody 0%nat a out eq_refl) as Hhead.
    rewrite Nat.add_0_r in Hhead. rewrite Hhead. cbn [mbind option_bind].
    rewrite (IH (S k)).
    + rewrite Nat.add_0_r, <- app_assoc.
      apply (f_equal Some), (f_equal (app out)), (f_equal (app (f k a))).
      apply (f_equal mjoin).
      apply imap_ext. intros j b _. simpl. f_equal. lia.
    + intros j b o Hj. replace (S k + j)%nat with (k + S j)%nat by lia.
      by apply Hbody.
Qed.

Lemma draw_cell_in_range cols m i j row (alive : bool) out :
  rectangular cols m →
  Z.of_nat (Rows m) ≤ 2 ^ 31 → Z.of_nat cols ≤ 2 ^ 31 →
  m !! i = Some row → row !! j = Some alive →
  draw_cell m i j out
  = Some (out ++ if alive then [call_mvaddch (Z.of_nat i) (Z.of_nat j)] else []).
Proof.
  intros Hm Hrows Hcols Hrow Halive.
  pose proof (lookup_lt_Some _ _ _ Hrow) as Hi.
  pose proof (lookup_lt_Some _ _ _ Halive) as Hj.
  pose proof (rectangular_lookup cols m i row Hm Hrow) as Hlen.
  unfold Rows in Hrows. unfold draw_cell, subscript.
  rewrite !to_int_small, to_size_t_small, at_index_nat, Hrow by lia.
  cbn [mbind option_bind]. rewrite Halive. cbn [mbind option_bind].
  destruct alive; [done|by rewrite app_nil_r].
Qed.

Lemma draw_row_in_range cols m i row out :
  rectangular cols m →
  Z.of_nat (Rows m) ≤ 2 ^ 31 → Z.of_nat cols ≤ 2 ^ 31 →
  m !! i = Some row →
  draw_row m i out
  = Some (out ++ mjoin (imap (λ j (alive : bool),
             if alive then [call_mvaddch (Z.of_nat i) (Z.of_nat j)] else [])
           row)).
Proof.
  intros Hm Hrows Hcols Hrow. unfold draw_row.
  pose proof (lookup_lt_Some _ _ _ Hrow) as Hi.
  rewrite (Cols_rectangular cols) by (done || unfold Rows; lia).
  cbn [mbind option_bind].
  rewrite <- (rectangular_lookup cols m i row Hm Hrow).
  rewrite (for_each_imap (draw_cell m i)
             (λ j (alive : bool),
                if alive then [call_mvaddch (Z.of_nat i) (Z.of_nat j)] else [])
             row 0 out); [done|].
  intros j alive o Halive. simpl. by apply (draw_cell_in_range cols _ _ _ row).
Qed.

Lemma DrawBoard_picture cols m :
  rectangular cols m →
  Z.of_nat (Rows m) ≤ 2 ^ 31 → Z.of_nat cols ≤ 2 ^ 31 →
  DrawBoard m = Some (picture m ++ [call_refresh]).
Proof.
  intros Hm Hrows Hcols. unfold DrawBoard, Rows.
  rewrite (for_each_imap (draw_row m)
             (λ i row, mjoin (imap (λ j (alive : bool),
                if alive then [call_mvaddch (Z.of_nat i) (Z.of_nat j)] else [])
               row)) m 0 []); [done|].
  intros i row o Hrow. simpl. by apply (draw_row_in_range cols).
Qed.

Lemma elem_of_picture m c :
  c ∈ picture m ↔
  ∃ i j, c = call_mvaddch (Z.of_nat i) (Z.of_nat j) ∧ cell m i j = Some true.
Proof.
  unfold picture. rewrite list_elem_of_join. split.
  - intros (calls & Hc & Hcalls).
    apply elem_of_lookup_imap in Hcalls as (i & row & -> & Hrow).
    apply list_elem_of_join in Hc as (cs & Hc & Hcs).
    apply elem_of_lookup_imap in Hcs as (j & alive & -> & Halive).
    destruct alive; [|by apply elem_of_nil in Hc].
    apply list_elem_of_singleton in Hc as ->.
    exists i, j. split; [done|]. unfold cell. by rewrite Hrow.
  - intros (i & j & -> & Hcell).
    apply cell_Some_inv in Hcell as (row & Hrow & Halive).
    eexists. split; [|by apply (elem_of_lookup_imap_2 _ m row i)].
    apply list_elem_of_join. eexists.
    split; [|by apply (elem_of_lookup_imap_2 _ row true j)].
    by apply list_elem_of_singleton.
Qed.

Lemma NoDup_join_imap {A B} (l : list A) : ∀ f : nat → A → list B,
  (∀ i a, NoDup (f i a)) →
  (∀ i i' a a' b, b ∈ f i a → b ∈ f i' a' → i = i') →
  NoDup (mjoin (imap f l)).
Proof.
  induction l as [|a l IH]; intros f Hnodup Hindex; simpl; [constructor|].
  apply NoDup_app. split; [apply Hnodup|]. split.
  - intros b Hb Hb'. apply list_elem_of_join in Hb' as (bs & Hb' & Hbs).
    apply elem_of_lookup_imap in Hbs as (i & a' & -> & _).
    pose proof (Hindex _ _ _ _ _ Hb Hb') as Heq. discriminate Heq.
  - apply IH; [intros; apply Hnodup|].
    intros i i' a1 a2 b Hb Hb'. simpl in *.
    pose proof (Hindex _ _ _ _ _ Hb Hb') as Heq. by injection Heq.
Qed.

Lemma NoDup_picture m : NoDup (picture m).
Proof.
  unfold picture. apply NoDup_join_imap.
  - intros i row. apply NoDup_join_imap.
    + intros j [|]; [apply NoDup_singleton|constructor].
    + intros j j' [|] [|] c Hc Hc';
        try (by apply elem_of_nil in Hc); try (by apply elem_of_nil in Hc').
      apply list_elem_of_singleton in Hc as ->.
      apply list_elem_of_singleton in Hc' as [= Hj]. lia.
  - intros i i' row row' c Hc Hc'.
    apply list_elem_of_join in Hc as (cs & Hc & Hcs).
    apply elem_of_lookup_imap in Hcs as (j & alive & -> & _).
    apply list_elem_of_join in Hc' as (cs' & Hc' & Hcs').
    apply elem_of_lookup_imap in Hcs' as (j' & alive' & -> & _).
    destruct alive, alive';
      try (by apply elem_of_nil in Hc); try (by apply elem_of_nil in Hc').
    apply list_elem_of_singleton in Hc as ->.
    apply list_elem_of_singleton in Hc' as [= Hi _]. lia.
Qed.

(** X12: on a valid board of at most 2^31 rows and columns (one without rows
    included) [DrawBoard] reads no cell outside the grid; it calls [mvaddch]
    once for every live cell, at the cell's row and column, for no other
    position, and then [refresh]. *)
Theorem DrawBoard_draws_live_cells cols m :
  rectangular cols m →
  Z.of_nat (Rows m) ≤ 2 ^ 31 → Z.of_nat cols ≤ 2 ^ 31 →
  ∃ out, DrawBoard m = Some (out ++ [call_refresh]) ∧ NoDup out ∧
         ∀ c, c ∈ out ↔
              ∃ i j, c = call_mvaddch (Z.of_nat i) (Z.of_nat j) ∧
                     cell m i j = Some true.
Proof.
  intros Hm Hrows Hcols. exists (picture m).
  split; [by apply (DrawBoard_picture cols)|].
  split; [apply NoDup_picture|apply elem_of_picture].
Qed.

Lemma DrawBoard_draws_live_cells_witness :
  rectangular 5 blinker_5x5 ∧
  Z.of_nat (Rows blinker_5x5) ≤ 2 ^ 31 ∧ Z.of_nat 5 ≤ 2 ^ 31 ∧
  ∃ out, DrawBoard blinker_5x5 = Some (out ++ [call_refresh]) ∧ NoDup out ∧
         ∀ c, c ∈ out ↔
              ∃ i j, c = call_mvaddch (Z.of_nat i) (Z.of_nat j) ∧
                     cell blinker_5x5 i j = Some true.
Proof.
  assert (rectangular 5 blinker_5x5) as Hm by repeat constructor.
  assert (Z.of_nat (Rows blinker_5x5) ≤ 2 ^ 31) as Hrows by (simpl; lia).
  assert (Z.of_nat 5 ≤ 2 ^ 31) as Hcols by lia.
  repeat (split; [assumption|]).
  exact (DrawBoard_draws_live_cells 5 blinker_5x5 Hm Hrows Hcols).
Defined.

(** X13: seeding a freshly constructed board of 1 to 2^31 rows and at most
    2^31 columns with seeds that all lie on it, and drawing it: the
    [mvaddch] calls of the first frame are exactly the seed positions,
    [(y, x)] drawn at row [y], column [x]. *)
Theorem DrawBoard_after_seeding rows cols init_state :
  (0 < rows)%nat → Z.of_nat rows ≤ 2 ^ 31 → Z.of_nat cols ≤ 2 ^ 31 →
  Forall (on_board rows cols) init_state →
  ∃ m out,
    InitializeBoard init_state (GameOfLifeBoard rows cols) = Returned m ∧
    DrawBoard m = Some (out ++ [call_refresh]) ∧
    ∀ c, c ∈ out ↔
         ∃ pos, pos ∈ init_state ∧
                c = call_mvaddch (Z.of_nat (y pos)) (Z.of_nat (x pos)).
Proof.
  intros Hpos Hrows Hcols Hall.
  pose proof (rectangular_GameOfLifeBoard rows cols) as Hm.
  assert (Rows (GameOfLifeBoard rows cols) = rows) as Hlen by apply length_replicate.
  set (m := foldl seed (GameOfLifeBoard rows cols) init_state).
  assert (InitializeBoard init_state (GameOfLifeBoard rows cols) = Returned m)
    as Hinit by (apply (InitializeBoard_accepts cols); rewrite ?Hlen; done).
  destruct (seeds_shape cols init_state _ Hm) as [Hrows' Hm']. fold m in Hrows', Hm'.
  pose proof (cell_seeds init_state (GameOfLifeBoard rows cols)) as Hcells.
  fold m in Hcells.
  exists m, (picture m). split; [done|].
  split; [apply (DrawBoard_picture cols); [done|lia|done]|].
  intros c. rewrite elem_of_picture. split.
  - intros (i & j & -> & Hcell). rewrite Hcells in Hcell.
    destruct (cell (GameOfLifeBoard rows cols) i j) as [alive|] eqn:Hold;
      simpl in Hcell; [|done].
    apply GameOfLifeBoard_cells_dead in Hold as ->. simpl in Hcell.
    injection Hcell as Hex. apply bool_decide_eq_true in Hex.
    apply Exists_exists in Hex as (pos & Hin & <- & <-). by exists pos.
  - intros (pos & Hin & ->). exists (y pos), (x pos). split; [done|].
    rewrite Hcells.
    pose proof (proj1 (Forall_forall _ _) Hall pos Hin) as [Hy Hx].
    rewrite cell_GameOfLifeBoard by done. simpl. f_equal.
    apply bool_decide_eq_true. apply Exists_exists. by exists pos.
Qed.

Lemma DrawBoard_after_seeding_witness :
  (0 < 3)%nat ∧ Z.of_nat 3 ≤ 2 ^ 31 ∧ Z.of_nat 4 ≤ 2 ^ 31 ∧
  Forall (on_board 3 4) [mkPosition2D 1 2; mkPosition2D 3 0] ∧
  ∃ m out,
    InitializeBoard [mkPosition2D 1 2; mkPosition2D 3 0] (GameOfLifeBoard 3 4)
    = Returned m ∧
    DrawBoard m = Some (out ++ [call_refresh]) ∧
    ∀ c, c ∈ out ↔
         ∃ pos, pos ∈ [mkPosition2D 1 2; mkPosition2D 3 0] ∧
                c = call_mvaddch (Z.of_nat (y pos)) (Z.of_nat (x pos)).
Proof.
  assert (0 < 3)%nat as Hpos by lia.
  assert (Z.of_nat 3 ≤ 2 ^ 31) as Hrows by lia.
  assert (Z.of_nat 4 ≤ 2 ^ 31) as Hcols by lia.
  assert (Forall (on_board 3 4) [mkPosition2D 1 2; mkPosition2D 3 0]) as Hall
    by (repeat constructor; simpl; lia).
  repeat (split; [assumption|]).
  exact (DrawBoard_after_seeding 3 4 _ Hpos Hrows Hcols Hall).
Defined.

(** ** [RunDrawLoop] *)

Lemma Quit_false key : key ≠ 113 → Quit key = false.
Proof. intros Hkey. unfold Quit. apply Z.eqb_neq. lia. Qed.

Lemma RunDrawLoop_pass cols dim ms key keys m out :
  rectangular cols m →
  Z.of_nat (Rows m) ≤ 2 ^ 31 → Z.of_nat cols ≤ 2 ^ 31 →
  key ≠ 113 →
  RunDrawLoop dim ms (key :: keys) m out
  = RunDrawLoop dim ms keys (next_generation m)
      (out ++ frame dim ms (picture m ++ [call_refresh])).
Proof.
  intros Hm Hrows Hcols Hkey. cbn [RunDrawLoop].
  rewrite Quit_false by done.
  rewrite (DrawBoard_picture cols), Tick_next_generation by (done || by exists cols).
  done.
Qed.

Lemma RunDrawLoop_passes cols dim ms keys : ∀ rest m out,
  rectangular cols m →
  Z.of_nat (Rows m) ≤ 2 ^ 31 → Z.of_nat cols ≤ 2 ^ 31 →
  Forall (λ key, key ≠ 113) keys →
  RunDrawLoop dim ms (keys ++ rest) m out
  = RunDrawLoop dim ms rest (generations (length keys) m)
      (out ++ film dim ms (length keys) m).
Proof.
  induction keys as [|key keys IH]; intros rest m out Hm Hrows Hcols Hkeys.
  - simpl. by rewrite app_nil_r.
  - apply Forall_cons in Hkeys as [Hkey Hkeys]. cbn [app length generations film].
    rewrite (RunDrawLoop_pass cols) by done.
    rewrite IH; try done.
    + by rewrite <- app_assoc.
    + by apply rectangular_next_generation.
    + unfold Rows in *. by rewrite length_next_generation.
Qed.

(** X14: on a valid board of at most 2^31 rows and columns, with [n] keys
    other than [q] followed by [q], [RunDrawLoop] makes [n] passes and
    leaves the loop: each pass clears, draws the current generation, prints
    the instructions, calls [Tick] once and sleeps, in this order; the board
    ends at generation [n], and a [q] at the first key draws nothing. *)
Theorem RunDrawLoop_until_q cols dim ms keys rest m out :
  rectangular cols m →
  Z.of_nat (Rows m) ≤ 2 ^ 31 → Z.of_nat cols ≤ 2 ^ 31 →
  Forall (λ key, key ≠ 113) keys →
  RunDrawLoop dim ms (keys ++ 113 :: rest) m out
  = Left_loop (out ++ film dim ms (length keys) m) (generations (length keys) m).
Proof.
  intros Hm Hrows Hcols Hkeys.
  by rewrite (RunDrawLoop_passes cols).
Qed.

Lemma RunDrawLoop_until_q_witness :
  rectangular 5 blinker_5x5 ∧
  Z.of_nat (Rows blinker_5x5) ≤ 2 ^ 31 ∧ Z.of_nat 5 ≤ 2 ^ 31 ∧
  Forall (λ key, key ≠ 113) [-1; 97] ∧
  RunDrawLoop (mkScreenDimension 5 6) 10 ([-1; 97] ++ 113 :: [98]) blinker_5x5 []
  = Left_loop ([] ++ film (mkScreenDimension 5 6) 10 (length [-1; 97]) blinker_5x5)
      (generations (length [-1; 97]) blinker_5x5).
Proof.
  assert (rectangular 5 blinker_5x5) as Hm by repeat constructor.
  assert (Z.of_nat (Rows blinker_5x5) ≤ 2 ^ 31) as Hrows by (simpl; lia).
  assert (Z.of_nat 5 ≤ 2 ^ 31) as Hcols by lia.
  assert (Forall (λ key, key ≠ 113) [-1; 97]) as Hkeys
    by (repeat constructor; lia).
  repeat (split; [assumption|]).
  exact (RunDrawLoop_until_q 5 _ 10 _ [98] _ [] Hm Hrows Hcols Hkeys).
Defined.

(** X15: on a valid board of at most 2^31 rows and columns [RunDrawLoop]
    never leaves the grid, however long it runs: as long as no [q] is read
    it stays in the loop, one pass per key read. *)
Theorem RunDrawLoop_without_q cols dim ms keys m out :
  rectangular cols m →
  Z.of_nat (Rows m) ≤ 2 ^ 31 → Z.of_nat cols ≤ 2 ^ 31 →
  Forall (λ key, key ≠ 113) keys →
  RunDrawLoop dim ms keys m out
  = In_loop (out ++ film dim ms (length keys) m) (generations (length keys) m).
Proof.
  intros Hm Hrows Hcols Hkeys.
  rewrite <- (app_nil_r keys) at 1. by rewrite (RunDrawLoop_passes cols).
Qed.

Lemma RunDrawLoop_without_q_witness :
  rectangular 5 blinker_5x5 ∧
  Z.of_nat (Rows blinker_5x5) ≤ 2 ^ 31 ∧ Z.of_nat 5 ≤ 2 ^ 31 ∧
  Forall (λ key, key ≠ 113) [-1; -1; -1] ∧
  RunDrawLoop (mkScreenDimension 5 6) 10 [-1; -1; -1] blinker_5x5 []
  = In_loop ([] ++ film (mkScreenDimension 5 6) 10 (length [-1; -1; -1]) blinker_5x5)
      (generations (length [-1; -1; -1]) blinker_5x5).
Proof.
  assert (rectangular 5 blinker_5x5) as Hm by repeat constructor.
  assert (Z.of_nat (Rows blinker_5x5) ≤ 2 ^ 31) as Hrows by (simpl; lia).
  assert (Z.of_nat 5 ≤ 2 ^ 31) as Hcols by lia.
  assert (Forall (λ key, key ≠ 113) [-1; -1; -1]) as Hkeys
    by (repeat constructor; lia).
  repeat (split; [assumption|]).
  exact (RunDrawLoop_without_q 5 _ 10 _ _ [] Hm Hrows Hcols Hkeys).
Defined.

(** ** The board of [main] *)

Lemma main_board_dimensions dim :
  1 ≤ height dim < 2 ^ 31 → 0 ≤ width dim < 2 ^ 31 →
  main_board dim
  = GameOfLifeBoard (Z.to_nat (height dim - 1)) (Z.to_nat (width dim)).
Proof.
  intros Hh Hw. unfold main_board. by rewrite !to_size_t_small by lia.
Qed.

(** X16: [main] takes the dimensions of its board from two [int]s; on a
    screen of at least one line, every board it can reach by [Tick]s and
    in-range writes has fewer than 2^31 rows and columns, so
    [CountLiveNeighbors] of an in-range cell is the number of live cells
    among the eight surrounding positions. *)
Theorem main_board_counts dim m row col :
  1 ≤ height dim < 2 ^ 31 → 0 ≤ width dim < 2 ^ 31 →
  reachable (Rows (main_board dim)) (Z.to_nat (width dim)) m →
  (row < Rows m)%nat → (col < Z.to_nat (width dim))%nat →
  Z.of_nat (Rows m) = height dim - 1 ∧
  CountLiveNeighbors m row col = Some (Z.of_nat (live_neighbors m row col)).
Proof.
  intros Hh Hw Hreach Hrow Hcol.
  assert (Rows (main_board dim) = Z.to_nat (height dim - 1)) as Hrows.
  { rewrite main_board_dimensions by done. apply length_replicate. }
  destruct (reachable_shape _ _ m Hreach) as [Hlen Hm].
  fold (Rows m) in Hlen. rewrite Hrows in Hlen.
  split; [lia|].
  apply (CountLiveNeighbors_geometric (Z.to_nat (width dim))); (done || lia).
Qed.

Lemma main_board_counts_witness :
  1 ≤ height (mkScreenDimension 4 3) < 2 ^ 31 ∧
  0 ≤ width (mkScreenDimension 4 3) < 2 ^ 31 ∧
  reachable (Rows (main_board (mkScreenDimension 4 3)))
    (Z.to_nat (width (mkScreenDimension 4 3))) (main_board (mkScreenDimension 4 3)) ∧
  (1 < Rows (main_board (mkScreenDimension 4 3)))%nat ∧
  (2 < Z.to_nat (width (mkScreenDimension 4 3)))%nat ∧
  Z.of_nat (Rows (main_board (mkScreenDimension 4 3)))
  = height (mkScreenDimension 4 3) - 1 ∧
  CountLiveNeighbors (main_board (mkScreenDimension 4 3)) 1 2
  = Some (Z.of_nat (live_neighbors (main_board (mkScreenDimension 4 3)) 1 2)).
Proof.
  assert (1 ≤ height (mkScreenDimension 4 3) < 2 ^ 31) as Hh by (simpl; lia).
  assert (0 ≤ width (mkScreenDimension 4 3) < 2 ^ 31) as Hw by (simpl; lia).
  assert (reachable (Rows (main_board (mkScreenDimension 4 3)))
            (Z.to_nat (width (mkScreenDimension 4 3)))
            (main_board (mkScreenDimension 4 3))) as Hreach
    by apply (reach_construct 2 4).
  assert (1 < Rows (main_board (mkScreenDimension 4 3)))%nat as Hrow
    by (vm_compute; lia).
  assert (2 < Z.to_nat (width (mkScreenDimension 4 3)))%nat as Hcol
    by (vm_compute; lia).
  repeat (split; [assumption|]).
  exact (main_board_counts _ _ 1 2 Hh Hw Hreach Hrow Hcol).
Defined.

(** X17: the board of [main] has one row less than the screen: [DrawBoard]
    on any board [main] can reach draws inside the screen and never on its
    last line, where [DrawInstructions] prints. *)
Theorem DrawBoard_spares_last_line dim m out row col :
  1 ≤ height dim < 2 ^ 31 → 0 ≤ width dim < 2 ^ 31 →
  reachable (Rows (main_board dim)) (Z.to_nat (width dim)) m →
  DrawBoard m = Some out → call_mvaddch row col ∈ out →
  0 ≤ row < height dim - 1 ∧ 0 ≤ col < width dim ∧
  DrawInstructions dim = [call_mvprintw (height dim - 1) 0 "press q to quit";
                          call_refresh].
Proof.
  intros Hh Hw Hreach Hdraw Hin.
  assert (Rows (main_board dim) = Z.to_nat (height dim - 1)) as Hrows.
  { rewrite main_board_dimensions by done. apply length_replicate. }
  destruct (reachable_shape _ _ m Hreach) as [Hlen Hm].
  rewrite Hrows in Hlen.
  rewrite (DrawBoard_picture (Z.to_nat (width dim))) in Hdraw
    by (done || unfold Rows; lia).
  injection Hdraw as <-.
  apply elem_of_app in Hin as [Hin|Hin].
  2: { apply list_elem_of_singleton in Hin. discriminate Hin. }
  apply elem_of_picture in Hin as (i & j & [= -> ->] & Hcell).
  apply cell_Some_inv in Hcell as (r & Hr & Hj).
  pose proof (rectangular_lookup _ _ _ _ Hm Hr) as Hlenr.
  apply lookup_lt_Some in Hr, Hj. split; [lia|]. split; [lia|done].
Qed.

Lemma DrawBoard_spares_last_line_witness :
  1 ≤ height (mkScreenDimension 1 2) < 2 ^ 31 ∧
  0 ≤ width (mkScreenDimension 1 2) < 2 ^ 31 ∧
  reachable (Rows (main_board (mkScreenDimension 1 2)))
    (Z.to_nat (width (mkScreenDimension 1 2))) [[true]] ∧
  DrawBoard [[true]] = Some [call_mvaddch 0 0; call_refresh] ∧
  call_mvaddch 0 0 ∈ [call_mvaddch 0 0; call_refresh] ∧
  0 ≤ 0 < height (mkScreenDimension 1 2) - 1 ∧
  0 ≤ 0 < width (mkScreenDimension 1 2) ∧
  DrawInstructions (mkScreenDimension 1 2)
  = [call_mvprintw (height (mkScreenDimension 1 2) - 1) 0 "press q to quit";
     call_refresh].
Proof.
  assert (1 ≤ height (mkScreenDimension 1 2) < 2 ^ 31) as Hh by (simpl; lia).
  assert (0 ≤ width (mkScreenDimension 1 2) < 2 ^ 31) as Hw by (simpl; lia).
  assert (reachable (Rows (main_board (mkScreenDimension 1 2)))
            (Z.to_nat (width (mkScreenDimension 1 2))) [[true]]) as Hreach.
  { apply (reach_assign 1 1 (GameOfLifeBoard 1 1) _ 0 0 true).
    - apply reach_construct.
    - lia.
    - lia.
    - reflexivity. }
  assert (DrawBoard [[true]] = Some [call_mvaddch 0 0; call_refresh]) as Hdraw
    by reflexivity.
  assert (call_mvaddch 0 0 ∈ [call_mvaddch 0 0; call_refresh]) as Hin by left.
  repeat (split; [assumption|]).
  exact (DrawBoard_spares_last_line _ _ _ 0 0 Hh Hw Hreach Hdraw Hin).
Defined.

(** X18: on a screen of one line the board of [main] has no row, and
    [InitializeBoard] on it with at least one seed reads row 0 of the empty
    grid, whatever the width and the seeds. *)
Theorem main_one_line_screen dim pos rest :
  height dim = 1 →
  Rows (main_board dim) = 0%nat ∧
  InitializeBoard (pos :: rest) (main_board dim) = Undefined.
Proof.
  intros Hh. unfold main_board. rewrite Hh.
  change (Z.to_nat (to_size_t (1 - 1))) with 0%nat. done.
Qed.

Lemma main_one_line_screen_witness :
  height (mkScreenDimension 80 1) = 1 ∧
  Rows (main_board (mkScreenDimension 80 1)) = 0%nat ∧
  InitializeBoard (mkPosition2D 0 0 :: []) (main_board (mkScreenDimension 80 1))
  = Undefined.
Proof.
  assert (height (mkScreenDimension 80 1) = 1) as Hh by reflexivity.
  split; [exact Hh|].
  exact (main_one_line_screen (mkScreenDimension 80 1) (mkPosition2D 0 0) [] Hh).
Defined.

(** ** [LoadInitState] *)

Lemma load_lines_app sscanf lines : ∀ pos init_state,
  load_lines sscanf lines pos init_state
  = init_state ++ load_lines sscanf lines pos [].
Proof.
  induction lines as [|line lines IH]; intros pos init_state; simpl.
  - by rewrite app_nil_r.
  - rewrite IH, (IH _ [_]). by rewrite <- app_assoc.
Qed.

Lemma load_lines_cons sscanf line lines pos :
  load_lines sscanf (line :: lines) pos []
  = scan_line sscanf line pos
    :: load_lines sscanf lines (scan_line sscanf line pos) [].
Proof. simpl. by rewrite load_lines_app. Qed.

Lemma length_load_lines sscanf lines : ∀ pos,
  length (load_lines sscanf lines pos []) = length lines.
Proof.
  induction lines as [|line lines IH]; intros pos; [done|].
  rewrite load_lines_cons. simpl. by rewrite IH.
Qed.

(** The position pushed for line [k]: what [sscanf] makes of the position
    pushed for the line before (of [(0, 0)] at the first line). *)
Lemma load_lines_lookup sscanf lines : ∀ pos k line,
  lines !! k = Some line →
  load_lines sscanf lines pos [] !! k
  = Some (scan_line sscanf line
            (match k with
             | O => pos
             | S k' => default pos (load_lines sscanf lines pos [] !! k')
             end)).
Proof.
  induction lines as [|l lines IH]; intros pos k line Hline; [done|].
  rewrite load_lines_cons. destruct k as [|k]; simpl in *.
  - by injection Hline as ->.
  - rewrite (IH _ _ _ Hline). do 2 f_equal.
    destruct k as [|k]; [done|]. simpl.
    destruct (lookup_lt_is_Some_2 (load_lines sscanf lines (scan_line sscanf l pos) [])
                k) as [p Hp]; [|by rewrite Hp].
    rewrite length_load_lines. apply lookup_lt_Some in Hline. lia.
Qed.

(** X19: [LoadInitState] throws when the file cannot be opened, and
    otherwise returns one position for every line of the file, convertible
    or not: no line is skipped or rejected. *)
Theorem LoadInitState_one_per_line sscanf filename file :
  match file with
  | None =>
      LoadInitState sscanf filename file
      = Invalid_argument ("invalid file path ->" +:+ filename)
  | Some lines =>
      ∃ init_state, LoadInitState sscanf filename file = Loaded init_state ∧
                    length init_state = length lines
  end.
Proof.
  destruct file as [lines|]; [|done].
  eexists. split; [done|]. apply length_load_lines.
Qed.

(** X20: a line of which [sscanf] converts nothing loads the position of the
    line before once more, and [(0, 0)] when it is the first line; a line of
    which it converts only the row keeps the column of the line before. *)
Theorem LoadInitState_keeps_previous sscanf filename lines k line :
  lines !! k = Some line →
  ∃ init_state previous,
    LoadInitState sscanf filename (Some lines) = Loaded init_state ∧
    previous = match k with
               | O => mkPosition2D 0 0
               | S k' => default (mkPosition2D 0 0) (init_state !! k')
               end ∧
    init_state !! k
    = Some match sscanf line with
           | stored_none => previous
           | stored_y y' => mkPosition2D (x previous) y'
           | stored_y_x y' x' => mkPosition2D x' y'
           end.
Proof.
  intros Hline. eexists _, _. split; [done|]. split; [done|].
  by rewrite (load_lines_lookup sscanf lines _ k line).
Qed.

Lemma LoadInitState_keeps_previous_witness :
  ["(1, 2)"; ""] !! 1%nat = Some "" ∧
  ∃ init_state previous,
    LoadInitState (λ line, if decide (line = "(1, 2)") then stored_y_x 1 2
                           else stored_none)
      "seeds.txt" (Some ["(1, 2)"; ""]) = Loaded init_state ∧
    previous = default (mkPosition2D 0 0) (init_state !! 0%nat) ∧
    init_state !! 1%nat
    = Some match (if decide ("" = "(1, 2)") then stored_y_x 1 2 else stored_none) with
           | stored_none => previous
           | stored_y y' => mkPosition2D (x previous) y'
           | stored_y_x y' x' => mkPosition2D x' y'
           end.
Proof.
  assert (["(1, 2)"; ""] !! 1%nat = Some "") as Hline by reflexivity.
  split; [exact Hline|].
  exact (LoadInitState_keeps_previous
           (λ line, if decide (line = "(1, 2)") then stored_y_x 1 2 else stored_none)
           "seeds.txt" ["(1, 2)"; ""] 1 "" Hline).
Defined.

(** X21: when [sscanf] converts both numbers of every line, the positions
    loaded are the pairs of the lines, in the order of the file. *)
Theorem LoadInitState_converted_lines sscanf filename lines pairs :
  Forall2 (λ line pos, sscanf line = stored_y_x (y pos) (x pos)) lines pairs →
  LoadInitState sscanf filename (Some lines) = Loaded pairs.
Proof.
  intros Hall. unfold LoadInitState. f_equal.
  generalize (mkPosition2D 0 0).
  induction Hall as [|line pos lines pairs Hline _ IH]; intros start; [done|].
  rewrite load_lines_cons. unfold scan_line at 1 2. rewrite Hline.
  destruct pos as [px py]. simpl. f_equal. apply IH.
Qed.

Lemma LoadInitState_converted_lines_witness :
  Forall2 (λ line pos,
             (if decide (line = "(1, 2)") then stored_y_x 1 2 else stored_none)
             = stored_y_x (y pos) (x pos))
    ["(1, 2)"; "(1, 2)"] [mkPosition2D 2 1; mkPosition2D 2 1] ∧
  LoadInitState (λ line, if decide (line = "(1, 2)") then stored_y_x 1 2
                         else stored_none)
    "seeds.txt" (Some ["(1, 2)"; "(1, 2)"])
  = Loaded [mkPosition2D 2 1; mkPosition2D 2 1].
Proof.
  assert (Forall2 (λ line pos,
             (if decide (line = "(1, 2)") then stored_y_x 1 2 else stored_none)
             = stored_y_x (y pos) (x pos))
            ["(1, 2)"; "(1, 2)"] [mkPosition2D 2 1; mkPosition2D 2 1]) as Hall
    by (repeat constructor).
  split; [exact Hall|].
  exact (LoadInitState_converted_lines _ "seeds.txt" _ _ Hall).
Defined.
